(** * Fore: the XPath dependency-tracking and invalidation engine

    A shallow embedding of [DependencyNotifyingDomFacade], [getOrDefault] and
    [XPathInvalidator] (the second document of
    [assets/@vaadin/vaadin-text-field/src/vaadin-text-area.js]) together with
    the properties of the engine that the specification states.

    Conventions of the embedding:
    - nodes and components are JavaScript objects compared by identity; they
      are modelled by natural numbers (their "addresses");
    - a JavaScript [Set] is a duplicate-free list in insertion order;
    - a [WeakMap] is a finite map ([gmap]);
    - a method is a function from the state before the call to a completion
      (normal return or thrown error) and the state after it.

    The first part holds the model, the second part the lemmas and the
    theorems. *)

From stdpp Require Import gmap strings list fin_maps.

Abbreviation Node := nat (only parsing).
Abbreviation Component := nat (only parsing).

(** * Part I: the model *)

(** ** Completions: normal return and thrown errors *)

Inductive JSError :=
| TypeError (msg : string)
| UserError (payload : nat).

Inductive Completion (A : Type) :=
| Normal (a : A)
| Throw (e : JSError).
Arguments Normal {A} a.
Arguments Throw {A} e.

(** A computation over a mutable state [S]: the state survives a throw. *)
Definition M (S A : Type) : Type := S → Completion A * S.

Definition ret {S A} (a : A) : M S A := λ s, (Normal a, s).
Definition throw {S A} (e : JSError) : M S A := λ s, (Throw e, s).
Definition bind {S A B} (m : M S A) (k : A → M S B) : M S B :=
  λ s, match m s with
       | (Normal a, s') => k a s'
       | (Throw e, s') => (Throw e, s')
       end.
Definition lift {S A} (c : Completion A) : M S A := λ s, (c, s).
Definition gets {S A} (f : S → A) : M S A := λ s, (Normal (f s), s).
Definition modify {S} (f : S → S) : M S unit := λ s, (Normal tt, f s).

Notation "'let!' x ':=' m 'in' k" := (bind m (λ x, k))
  (at level 10, x name, m at level 100, k at level 200).
Notation "m >>> k" := (bind m (λ _, k))
  (at level 100, right associativity).

(** [for (const x of l) body(x)]: a throw ends the loop. *)
Fixpoint forOf {S A} (l : list A) (body : A → M S unit) : M S unit :=
  match l with
  | [] => ret tt
  | x :: rest => body x >>> forOf rest body
  end.

(** ** JavaScript [Set]: insertion-ordered, duplicate-free *)

Module JSSet.
Section Ops.
Context {A : Type} `{EqDecision A}.

Definition add (x : A) (s : list A) : list A :=
  if decide (x ∈ s) then s else s ++ [x].

Definition delete (x : A) (s : list A) : list A :=
  filter (λ y, y ≠ x) s.

End Ops.
End JSSet.

(** ** The host: the DOM tree and fontoxpath's bucket function

    The tree is external to the engine. A node is described by what the code
    reads from it: [nodeType], the chain of its ancestors ([parentNode] is
    the first of them), [childNodes], [attributes], [getAttribute], [value]
    and [data]. What only some nodes have is optional: [attributes] and
    [getAttribute] are members of elements, not of text, attribute or
    document nodes. *)

Definition ATTRIBUTE_NODE : nat := 2.
Definition TEXT_NODE : nat := 3.
Definition DOCUMENT_NODE : nat := 9.

Record Host := {
  nodeType : Node → nat;
  (** parent, grandparent, ... up to the root of the tree *)
  ancestors : Node → list Node;
  childNodes : Node → list Node;
  (** [node.attributes]: the [Attr] nodes of an element; [undefined] ([None])
      on a node that is not an element *)
  attributes : Node → option (list Node);
  (** the [getAttribute] method of an element, which returns the value or
      [null]; a node that is not an element has no such method ([None]) *)
  getAttribute : Node → option (string → option string);
  value : Node → option string;
  data : Node → option string;
  documentElement : Node → option Node;
  (** a [getChildNodes] method of the node object, when it has one; the DOM
      [Node] interface has none ([childNodes] is a property) *)
  getChildNodes : Node → option (list Node);
  (** [getBucketsForNode], imported from fontoxpath *)
  getBucketsForNode : Node → list string;
}.

Definition parentNode (h : Host) (node : Node) : option Node :=
  head (ancestors h node).

(** What follows [node] in a list of children. *)
Fixpoint after (node : Node) (l : list Node) : list Node :=
  match l with
  | [] => []
  | x :: l' => if decide (x = node) then l' else after node l'
  end.

(** The siblings that follow [node], nearest first: the chain
    [node.nextSibling], [node.nextSibling.nextSibling], ... up to [null]. *)
Definition followingSiblings (h : Host) (node : Node) : list Node :=
  match parentNode h node with
  | Some p => after node (childNodes h p)
  | None => []
  end.

(** The siblings that precede [node], nearest first: the chain
    [node.previousSibling], [node.previousSibling.previousSibling], ... *)
Definition precedingSiblings (h : Host) (node : Node) : list Node :=
  match parentNode h node with
  | Some p => after node (reverse (childNodes h p))
  | None => []
  end.

Definition nextSibling (h : Host) (node : Node) : option Node :=
  head (followingSiblings h node).
Definition previousSibling (h : Host) (node : Node) : option Node :=
  head (precedingSiblings h node).

(** A host whose nodes are DOM nodes: no node has a [getChildNodes] method. *)
Definition DomConformant (h : Host) : Prop := ∀ n, getChildNodes h n = None.

(** The method call [node.getChildNodes()]: calling a property the object
    does not have throws. *)
Definition callGetChildNodes (h : Host) (node : Node) : Completion (list Node) :=
  match getChildNodes h node with
  | Some l => Normal l
  | None => Throw (TypeError "node.getChildNodes is not a function")
  end.

(** [Array.from(node.attributes)]: [Array.from(undefined)] throws. *)
Definition arrayFromAttributes (h : Host) (node : Node) : Completion (list Node) :=
  match attributes h node with
  | Some l => Normal l
  | None => Throw (TypeError "undefined is not iterable")
  end.

(** The method call [node.getAttribute(attributeName)]. *)
Definition callGetAttribute (h : Host) (node : Node) (attributeName : string)
  : Completion (option string) :=
  match getAttribute h node with
  | Some method => Normal (method attributeName)
  | None => Throw (TypeError "node.getAttribute is not a function")
  end.

(** ** Buckets

    A bucket argument is a string or [undefined]. *)

(** [!bucket]: [undefined] and the empty string are falsy. *)
Definition falsy (bucket : option string) : bool :=
  match bucket with
  | None => true
  | Some b => bool_decide (b = EmptyString)
  end.

(** [buckets.includes(bucket)]: the array holds strings only, so it never
    includes [undefined]. *)
Definition includes (buckets : list string) (bucket : option string) : bool :=
  match bucket with
  | None => false
  | Some b => bool_decide (b ∈ buckets)
  end.

(** ** [DependencyNotifyingDomFacade] *)

Module DependencyNotifyingDomFacade.
Section Methods.
Context {S : Type}.
Variable h : Host.
(** the constructor's argument *)
Variable _onNodeTouched : Node → M S unit.

Definition getAllAttributes (node : Node) : M S (list Node) :=
  _onNodeTouched node >>>
  lift (arrayFromAttributes h node).

Definition getAttribute (node : Node) (attributeName : string)
  : M S (option string) :=
  _onNodeTouched node >>>
  lift (callGetAttribute h node attributeName).

Definition getChildNodes (node : Node) (bucket : option string)
  : M S (list Node) :=
  _onNodeTouched node >>>
  let matchingNodes :=
    filter (λ childNode,
              falsy bucket || includes (getBucketsForNode h childNode) bucket)
           (childNodes h node) in
  ret matchingNodes.

Definition getData (node : Node) : M S (option string) :=
  _onNodeTouched node >>>
  if decide (nodeType h node = ATTRIBUTE_NODE) then ret (value h node)
  else ret (data h node).

Definition getFirstChild (node : Node) (bucket : option string)
  : M S (option Node) :=
  _onNodeTouched node >>>
  ret (find (λ child,
               falsy bucket || includes (getBucketsForNode h child) bucket)
            (childNodes h node)).

(** [node.getChildNodes()] is a method call on the node object. *)
Definition getLastChild (node : Node) (bucket : option string)
  : M S (option Node) :=
  _onNodeTouched node >>>
  let! children := lift (callGetChildNodes h node) in
  let matchingNodes :=
    filter (λ childNode,
              falsy bucket || includes (getBucketsForNode h childNode) bucket)
           children in
  ret (last matchingNodes).

(** The loop of [getNextSibling] over the chain of next siblings. *)
Fixpoint nextSiblingLoop (chain : list Node) (bucket : option string)
  : option Node :=
  match chain with
  | [] => None
  | sibling :: rest =>
      if negb (falsy bucket)
         && negb (includes (getBucketsForNode h sibling) bucket)
      then nextSiblingLoop rest bucket
      else Some sibling
  end.

Definition getNextSibling (node : Node) (bucket : option string)
  : M S (option Node) :=
  match parentNode h node with
  | Some p => _onNodeTouched p
  | None => ret tt
  end >>>
  ret (nextSiblingLoop (followingSiblings h node) bucket).

Definition getParentNode (node : Node) : M S (option Node) :=
  match parentNode h node with
  | Some p => _onNodeTouched p
  | None => ret tt
  end >>>
  ret (parentNode h node).

(** The loop of [getPreviousSibling]: unlike [nextSiblingLoop] it tests
    [includes] alone, without looking at whether a bucket was given. *)
Fixpoint previousSiblingLoop (chain : list Node) (bucket : option string)
  : option Node :=
  match chain with
  | [] => None
  | previousSibling :: rest =>
      if negb (includes (getBucketsForNode h previousSibling) bucket)
      then previousSiblingLoop rest bucket
      else Some previousSibling
  end.

Definition getPreviousSibling (node : Node) (bucket : option string)
  : M S (option Node) :=
  match parentNode h node with
  | Some p => _onNodeTouched p
  | None => ret tt
  end >>>
  ret (previousSiblingLoop (precedingSiblings h node) bucket).
End Methods.
End DependencyNotifyingDomFacade.

(** ** [MutationObserver], after the DOM Standard

  The browser's observer, as far as the engine uses it: [observe] with an
  options object, the queue of records not yet delivered, [takeRecords],
  and the rule that decides whether a mutation is recorded. *)

Module MutationObserver.
Inductive MutationType := ChildList | Attributes | CharacterData.

Record MutationRecord := { type : MutationType; target : Node }.

(** The dictionary [MutationObserverInit], once converted. *)
Record Init := {
  childList : bool;
  attributes : bool;
  characterData : bool;
  subtree : bool;
}.

Record t := {
  (** the nodes it is registered on, each with its options *)
  registrations : list (Node * Init);
  (** records queued and not yet delivered to the callback *)
  recordQueue : list MutationRecord;
}.

Definition fresh : t := {| registrations := []; recordQueue := [] |}.

(** An options object literal: its keys with their (boolean) values. *)
Fixpoint member (options : list (string * bool)) (key : string) : option bool :=
  match options with
  | [] => None
  | (k, v) :: rest => if decide (k = key) then Some v else member rest key
  end.

(** Conversion to the dictionary: members the dictionary does not have are
    ignored; [attributes] and [characterData] default to whether the
    matching [...OldValue] member is present. *)
Definition toInit (options : list (string * bool)) : Init :=
  {| childList := default false (member options "childList");
     attributes :=
       default (bool_decide (is_Some (member options "attributeOldValue")))
               (member options "attributes");
     characterData :=
       default (bool_decide (is_Some (member options "characterDataOldValue")))
               (member options "characterData");
     subtree := default false (member options "subtree") |}.

Fixpoint register (target : Node) (i : Init) (regs : list (Node * Init))
  : list (Node * Init) :=
  match regs with
  | [] => [(target, i)]
  | (n, j) :: rest =>
      if decide (n = target) then (n, i) :: rest
      else (n, j) :: register target i rest
  end.

Definition observe (target : Node) (options : list (string * bool)) (o : t)
  : Completion unit * t :=
  let i := toInit options in
  if negb (childList i || attributes i || characterData i) then
    (Throw (TypeError "The options object must set at least one of 'attributes', 'characterData', or 'childList' to true."), o)
  else if default false (member options "attributeOldValue") && negb (attributes i) then
    (Throw (TypeError "attributeOldValue requires attributes"), o)
  else if default false (member options "characterDataOldValue") && negb (characterData i) then
    (Throw (TypeError "characterDataOldValue requires characterData"), o)
  else
    (Normal tt,
     {| registrations := register target i (registrations o);
        recordQueue := recordQueue o |}).

Definition enabled (ty : MutationType) (i : Init) : bool :=
  match ty with
  | ChildList => childList i
  | Attributes => attributes i
  | CharacterData => characterData i
  end.

(** Is the observer interested in a mutation of type [ty] on [node]? It is
    when it is registered, with that type enabled, on [node] itself or,
    with [subtree], on one of its ancestors. *)
Definition interested (h : Host) (ty : MutationType) (node : Node) (o : t) : bool :=
  existsb
    (λ '(root, i),
       (bool_decide (root = node)
        || (subtree i && bool_decide (root ∈ ancestors h node)))
       && enabled ty i)
    (registrations o).

(** "Queue a mutation record". *)
Definition queueRecord (h : Host) (ty : MutationType) (node : Node) (o : t) : t :=
  if interested h ty node o then
    {| registrations := registrations o;
       recordQueue := recordQueue o ++ [{| type := ty; target := node |}] |}
  else o.

Definition takeRecords (o : t) : list MutationRecord * t :=
  (recordQueue o, {| registrations := registrations o; recordQueue := [] |}).
End MutationObserver.

Abbreviation MutationRecord := MutationObserver.MutationRecord.

(** ** [getOrDefault] *)

(** Returns the set stored under [key], storing a new empty one first when
    there is none. The result is the stored set itself: what the caller adds
    to it is added under [key] (see [addTo]). *)
Definition getOrDefault (map : gmap nat (list nat)) (key : nat)
  : list nat * gmap nat (list nat) :=
  match map !! key with
  | Some set => (set, map)
  | None => let def := [] in (def, <[key := def]> map)
  end.

(** [set.add(x)] on the set stored under [key]. *)
Definition addTo (key x : nat) (map : gmap nat (list nat)) : gmap nat (list nat) :=
  alter (JSSet.add x) key map.

(** [set.delete(x)] on the set stored under [key]. *)
Definition deleteFrom (key x : nat) (map : gmap nat (list nat)) : gmap nat (list nat) :=
  alter (JSSet.delete x) key map.

(** ** [XPathInvalidator] *)

(** The facade object that [runInInvalidationContext] creates: its
    [_onNodeTouched] callback adds to the [touchedNodes] set of the call that
    created it, so the object is determined by where that set lives. *)
Record Facade := { touchedNodes : nat }.

#[global] Instance Facade_eq_dec : EqDecision Facade.
Proof. solve_decision. Defined.

(** The fields of the object, then what surrounds it: the store of the
    [touchedNodes] sets allocated so far, and the console. *)
Record XPathInvalidator := {
  _dependentComponentsByNode : gmap nat (list nat);
  _dependenciesByComponent : gmap nat (list nat);
  _queuedMutationRecords : list MutationRecord;
  _mutationObserver : MutationObserver.t;
  _currentDomFacade : option Facade;
  touchedSets : list (list Node);
  console : list string;
}.

(** The object as [new XPathInvalidator()] leaves it. *)
Definition initial : XPathInvalidator :=
  {| _dependentComponentsByNode := ∅;
     _dependenciesByComponent := ∅;
     _queuedMutationRecords := [];
     _mutationObserver := MutationObserver.fresh;
     _currentDomFacade := None;
     touchedSets := [];
     console := [] |}.

Section Updates.
Implicit Type s : XPathInvalidator.

Definition with_dependentComponentsByNode (m : gmap nat (list nat)) s :=
  {| _dependentComponentsByNode := m;
     _dependenciesByComponent := _dependenciesByComponent s;
     _queuedMutationRecords := _queuedMutationRecords s;
     _mutationObserver := _mutationObserver s;
     _currentDomFacade := _currentDomFacade s;
     touchedSets := touchedSets s;
     console := console s |}.

Definition with_dependenciesByComponent (m : gmap nat (list nat)) s :=
  {| _dependentComponentsByNode := _dependentComponentsByNode s;
     _dependenciesByComponent := m;
     _queuedMutationRecords := _queuedMutationRecords s;
     _mutationObserver := _mutationObserver s;
     _currentDomFacade := _currentDomFacade s;
     touchedSets := touchedSets s;
     console := console s |}.

Definition with_queuedMutationRecords (q : list MutationRecord) s :=
  {| _dependentComponentsByNode := _dependentComponentsByNode s;
     _dependenciesByComponent := _dependenciesByComponent s;
     _queuedMutationRecords := q;
     _mutationObserver := _mutationObserver s;
     _currentDomFacade := _currentDomFacade s;
     touchedSets := touchedSets s;
     console := console s |}.

Definition with_mutationObserver (o : MutationObserver.t) s :=
  {| _dependentComponentsByNode := _dependentComponentsByNode s;
     _dependenciesByComponent := _dependenciesByComponent s;
     _queuedMutationRecords := _queuedMutationRecords s;
     _mutationObserver := o;
     _currentDomFacade := _currentDomFacade s;
     touchedSets := touchedSets s;
     console := console s |}.

Definition with_currentDomFacade (f : option Facade) s :=
  {| _dependentComponentsByNode := _dependentComponentsByNode s;
     _dependenciesByComponent := _dependenciesByComponent s;
     _queuedMutationRecords := _queuedMutationRecords s;
     _mutationObserver := _mutationObserver s;
     _currentDomFacade := f;
     touchedSets := touchedSets s;
     console := console s |}.

Definition with_touchedSets (t : list (list Node)) s :=
  {| _dependentComponentsByNode := _dependentComponentsByNode s;
     _dependenciesByComponent := _dependenciesByComponent s;
     _queuedMutationRecords := _queuedMutationRecords s;
     _mutationObserver := _mutationObserver s;
     _currentDomFacade := _currentDomFacade s;
     touchedSets := t;
     console := console s |}.

Definition with_console (c : list string) s :=
  {| _dependentComponentsByNode := _dependentComponentsByNode s;
     _dependenciesByComponent := _dependenciesByComponent s;
     _queuedMutationRecords := _queuedMutationRecords s;
     _mutationObserver := _mutationObserver s;
     _currentDomFacade := _currentDomFacade s;
     touchedSets := touchedSets s;
     console := c |}.
End Updates.

(** [touchedNodes.add(node)], the callback given to the facade. *)
Definition onNodeTouched (f : Facade) (node : Node) : M XPathInvalidator unit :=
  modify (λ s, with_touchedSets
                 (alter (JSSet.add node) (touchedNodes f) (touchedSets s)) s).

(** What [instanceRoot] can be: a node, or an object without [nodeType]. *)
Inductive InstanceRoot :=
| ANode (n : Node)
| NotANode.

(** The options object that [observeInstance] passes to [observe]. *)
Definition observeOptions : list (string * bool) :=
  [("childList", true); ("attributes", true); ("data", true); ("subtree", true)]%string.

Definition observeInstance (h : Host) (instanceRoot : InstanceRoot)
  : M XPathInvalidator unit :=
  match instanceRoot with
  | NotANode => ret tt
  | ANode n =>
      let instanceRoot :=
        if decide (nodeType h n = DOCUMENT_NODE) then documentElement h n
        else Some n in
      match instanceRoot with
      | None =>
          throw (TypeError "Failed to execute 'observe' on 'MutationObserver': parameter 1 is not of type 'Node'.")
      | Some root =>
          λ s, let '(r, o) := MutationObserver.observe root observeOptions
                                (_mutationObserver s) in
               (r, with_mutationObserver o s)
      end
  end.

(** The getter [currentDomFacade]; [None] is [null]. *)
Definition currentDomFacade : M XPathInvalidator (option Facade) :=
  λ s, match _currentDomFacade s with
       | None =>
           (Normal None,
            with_console (console s ++ ["XPath outside of dependency tracking!"%string]) s)
       | Some f => (Normal (Some f), s)
       end.

Definition removeComponent (component : Component) : M XPathInvalidator unit :=
  let! dependencies :=
    (λ s, match _dependenciesByComponent s !! component with
          | Some set => (Normal set, s)
          | None => (Throw (TypeError "undefined is not iterable"), s)
          end) in
  forOf dependencies
    (λ dependency s,
       match _dependentComponentsByNode s !! dependency with
       | Some siblingComponents =>
           (Normal tt,
            with_dependentComponentsByNode
              (deleteFrom dependency component (_dependentComponentsByNode s)) s)
       | None =>
           (Throw (TypeError "Cannot read properties of undefined (reading 'delete')"), s)
       end) >>>
  modify (λ s, with_dependenciesByComponent
                 (delete component (_dependenciesByComponent s)) s).

Definition getInvalidatedComponents : M XPathInvalidator (list Component) :=
  let! queued := gets _queuedMutationRecords in
  let! taken :=
    (λ s, let '(records, o) := MutationObserver.takeRecords (_mutationObserver s) in
          (Normal records, with_mutationObserver o s)) in
  let mutationRecords := queued ++ taken in
  modify (with_queuedMutationRecords []) >>>
  let! components :=
    gets (λ s, flat_map
                 (λ record,
                    match _dependentComponentsByNode s !! MutationObserver.target record with
                    | None => []
                    | Some set => set
                    end)
                 mutationRecords) in
  forOf components removeComponent >>>
  ret components.

(** The body of the loop over [touchedNodes]. *)
Definition recordDependency (component : Component) (touchedNode : Node)
  : M XPathInvalidator unit :=
  modify (λ s,
    let '(otherComponents, byNode) :=
      getOrDefault (_dependentComponentsByNode s) touchedNode in
    let s := with_dependentComponentsByNode (addTo touchedNode component byNode) s in
    with_dependenciesByComponent
      (addTo component touchedNode (_dependenciesByComponent s)) s).

Definition runInInvalidationContext
    (component : Component) (callback : M XPathInvalidator unit)
  : M XPathInvalidator unit :=
  (* const touchedNodes = new Set() *)
  let! facade :=
    (λ s, (Normal {| touchedNodes := length (touchedSets s) |},
           with_touchedSets (touchedSets s ++ [[]]) s)) in
  modify (with_currentDomFacade (Some facade)) >>>
  callback >>>
  let! otherDependencies :=
    (λ s, let '(set, byComponent) :=
            getOrDefault (_dependenciesByComponent s) component in
          (Normal set, with_dependenciesByComponent byComponent s)) in
  let! touched := gets (λ s, default [] (touchedSets s !! touchedNodes facade)) in
  forOf touched (recordDependency component) >>>
  modify (with_currentDomFacade None).

(** ** Callers of the engine

    The evaluator that runs inside [runInInvalidationContext] is outside the
    engine. A callback is described by what it does to the engine: it asks
    for the current facade, calls read primitives on a facade it holds,
    throws, or starts a tracked evaluation of its own; what it does next may
    depend on what it was given back. *)

Inductive Read :=
| GetAllAttributes (node : Node)
| GetAttribute (node : Node) (attributeName : string)
| GetChildNodes (node : Node) (bucket : option string)
| GetData (node : Node)
| GetFirstChild (node : Node) (bucket : option string)
| GetLastChild (node : Node) (bucket : option string)
| GetNextSibling (node : Node) (bucket : option string)
| GetParentNode (node : Node)
| GetPreviousSibling (node : Node) (bucket : option string).

Inductive Value :=
| VNodes (l : list Node)
| VNode (n : option Node)
| VString (s : option string).

(** The method call [facade.read(...)] on a facade of the engine. *)
Definition facadeRead (h : Host) (f : Facade) (r : Read) : M XPathInvalidator Value :=
  let touch := onNodeTouched f in
  match r with
  | GetAllAttributes node =>
      let! v := DependencyNotifyingDomFacade.getAllAttributes h touch node in ret (VNodes v)
  | GetAttribute node name =>
      let! v := DependencyNotifyingDomFacade.getAttribute h touch node name in ret (VString v)
  | GetChildNodes node bucket =>
      let! v := DependencyNotifyingDomFacade.getChildNodes h touch node bucket in ret (VNodes v)
  | GetData node =>
      let! v := DependencyNotifyingDomFacade.getData h touch node in ret (VString v)
  | GetFirstChild node bucket =>
      let! v := DependencyNotifyingDomFacade.getFirstChild h touch node bucket in ret (VNode v)
  | GetLastChild node bucket =>
      let! v := DependencyNotifyingDomFacade.getLastChild h touch node bucket in ret (VNode v)
  | GetNextSibling node bucket =>
      let! v := DependencyNotifyingDomFacade.getNextSibling h touch node bucket in ret (VNode v)
  | GetParentNode node =>
      let! v := DependencyNotifyingDomFacade.getParentNode h touch node in ret (VNode v)
  | GetPreviousSibling node bucket =>
      let! v := DependencyNotifyingDomFacade.getPreviousSibling h touch node bucket in ret (VNode v)
  end.

(** The expression [f.method(...)] for the value [f] that [currentDomFacade]
    returned: the method of the facade when [f] is one; on [null] the member
    access itself throws a [TypeError], as it does in JavaScript for every
    property of [null]. *)
Definition readThrough (h : Host) (f : option Facade) (r : Read)
  : M XPathInvalidator Value :=
  match f with
  | Some f => facadeRead h f r
  | None => throw (TypeError "Cannot read properties of null")
  end.

Inductive Script :=
| Return
| Raise (e : JSError)
| CurrentDomFacade (k : option Facade → Script)
| Call (f : option Facade) (r : Read) (k : Value → Script)
| RunInInvalidationContext (component : Component) (callback : Script) (k : Script).

Fixpoint exec (h : Host) (p : Script) : M XPathInvalidator unit :=
  match p with
  | Return => ret tt
  | Raise e => throw e
  | CurrentDomFacade k => let! f := currentDomFacade in exec h (k f)
  | Call f r k => let! v := readThrough h f r in exec h (k v)
  | RunInInvalidationContext component callback k =>
      runInInvalidationContext component (exec h callback) >>> exec h k
  end.

(** What happens to the engine from outside, one step at a time: the calls of
    the host, the mutations of the tree, and the delivery of the queued
    records to the observer's callback. *)
Inductive HostOp :=
| ObserveInstance (instanceRoot : InstanceRoot)
| RunInContext (component : Component) (callback : Script)
| GetInvalidatedComponents
| RemoveComponent (component : Component)
| ReadCurrentDomFacade
| Mutate (ty : MutationObserver.MutationType) (target : Node)
| Deliver.

(** The observer's callback: it pushes each record it is given. *)
Definition deliver (s : XPathInvalidator) : XPathInvalidator :=
  let '(records, o) := MutationObserver.takeRecords (_mutationObserver s) in
  with_queuedMutationRecords (_queuedMutationRecords s ++ records)
    (with_mutationObserver o s).

Definition mutate (h : Host) (ty : MutationObserver.MutationType) (target : Node)
    (s : XPathInvalidator) : XPathInvalidator :=
  with_mutationObserver
    (MutationObserver.queueRecord h ty target (_mutationObserver s)) s.

(** The state after one step, whether it returned or threw. *)
Definition step (h : Host) (op : HostOp) (s : XPathInvalidator) : XPathInvalidator :=
  match op with
  | ObserveInstance root => snd (observeInstance h root s)
  | RunInContext c callback => snd (runInInvalidationContext c (exec h callback) s)
  | GetInvalidatedComponents => snd (getInvalidatedComponents s)
  | RemoveComponent c => snd (removeComponent c s)
  | ReadCurrentDomFacade => snd (currentDomFacade s)
  | Mutate ty target => mutate h ty target s
  | Deliver => deliver s
  end.

(** A history: each step with the tree as it is at that moment. *)
Definition run (history : list (Host * HostOp)) (s : XPathInvalidator)
  : XPathInvalidator :=
  foldl (λ s '(h, op), step h op s) s history.

(** ** The dependency graph, as the specification reads it *)

Definition dependenciesOf (s : XPathInvalidator) (c : Component) : list Node :=
  default [] (_dependenciesByComponent s !! c).

Definition dependentsOf (s : XPathInvalidator) (n : Node) : list Component :=
  default [] (_dependentComponentsByNode s !! n).

Definition symmetric (s : XPathInvalidator) : Prop :=
  ∀ c n, n ∈ dependenciesOf s c ↔ c ∈ dependentsOf s n.

(** ** A small tree to run the engine on

    A document [0] whose element [1] has the children [2] (a text node), [3]
    and [4]; element [3] has the child [5]. Node [6] is the attribute [id] of
    element [1]. Every node but the document [0], the text node [2] and the
    attribute node [6] is an element. *)

Definition sampleHost : Host :=
  {| nodeType := λ n, match n with
                      | 0 => DOCUMENT_NODE
                      | 2 => TEXT_NODE
                      | 6 => ATTRIBUTE_NODE
                      | _ => 1
                      end;
     ancestors := λ n, match n with
                       | 1 => [0]
                       | 2 | 3 | 4 => [1; 0]
                       | 5 => [3; 1; 0]
                       | _ => []
                       end;
     childNodes := λ n, match n with
                        | 0 => [1]
                        | 1 => [2; 3; 4]
                        | 3 => [5]
                        | _ => []
                        end;
     attributes := λ n, match n with
                        | 0 | 2 | 6 => None
                        | 1 => Some [6]
                        | _ => Some []
                        end;
     getAttribute := λ n,
       match n with
       | 0 | 2 | 6 => None
       | 1 => Some (λ name,
                if decide (name = "id"%string) then Some "main"%string else None)
       | _ => Some (λ _, None)
       end;
     value := λ n, match n with 6 => Some "main"%string | _ => None end;
     data := λ n, match n with 2 => Some "hello"%string | _ => None end;
     documentElement := λ n, match n with 0 => Some 1 | _ => None end;
     getChildNodes := λ _, None;
     getBucketsForNode := λ n, match n with
                               | 2 => ["type-3"%string]
                               | 6 => ["type-2"%string]
                               | _ => ["type-1"%string]
                               end |}.


(** ** The operations, step by step

    Names for the states an operation goes through, so that the lemmas of
    the second part can say what each operation does. *)

Definition tracked (s : XPathInvalidator) (c : Component) : Prop :=
  is_Some (_dependenciesByComponent s !! c).

(** The step of the merge loop, as a function on states. *)
Definition recorded (component : Component) (touchedNode : Node)
    (s : XPathInvalidator) : XPathInvalidator :=
  snd (recordDependency component touchedNode s).

(** What [runInInvalidationContext] does before it calls back: a new
    [touchedNodes] set is allocated and a facade over it put in the slot. *)
Definition installFacade (s : XPathInvalidator) : XPathInvalidator :=
  with_currentDomFacade (Some {| touchedNodes := length (touchedSets s) |})
    (with_touchedSets (touchedSets s ++ [[]]) s).

(** The nodes touched so far through facade [f]. *)
Definition touchedBy (f : Facade) (s : XPathInvalidator) : list Node :=
  default [] (touchedSets s !! touchedNodes f).

(** What it does after the callback has returned. *)
Definition mergeTouched (c : Component) (f : Facade) (s : XPathInvalidator)
  : XPathInvalidator :=
  with_currentDomFacade None
    (foldl (λ s n, recorded c n s)
       (with_dependenciesByComponent
          (getOrDefault (_dependenciesByComponent s) c).2 s)
       (touchedBy f s)).

(** The state after [removeComponent] has gone through [dependencies]. *)
Definition evicted (c : Component) (dependencies : list Node)
    (s : XPathInvalidator) : XPathInvalidator :=
  with_dependenciesByComponent (delete c (_dependenciesByComponent s))
    (with_dependentComponentsByNode
       (foldl (λ m n, deleteFrom n c m) (_dependentComponentsByNode s) dependencies)
       s).

(** The records a drain works on: those already delivered, then those the
    observer still holds. *)
Definition pending (s : XPathInvalidator) : list MutationRecord :=
  _queuedMutationRecords s ++ MutationObserver.recordQueue (_mutationObserver s).

(** The components it collects from them, in order and with repetitions. *)
Definition collected (s : XPathInvalidator) : list Component :=
  flat_map
    (λ record,
       match _dependentComponentsByNode s !! MutationObserver.target record with
       | None => []
       | Some set => set
       end)
    (pending s).

(** The state once both sources of records are emptied. *)
Definition drained (s : XPathInvalidator) : XPathInvalidator :=
  with_queuedMutationRecords []
    (with_mutationObserver
       (MutationObserver.takeRecords (_mutationObserver s)).2 s).

(** States with the same two indices. *)
Definition sameGraph (s s' : XPathInvalidator) : Prop :=
  _dependenciesByComponent s' = _dependenciesByComponent s
  ∧ _dependentComponentsByNode s' = _dependentComponentsByNode s.

(** States that differ in the two indices at most. *)
Definition graphOnly (s s' : XPathInvalidator) : Prop :=
  _queuedMutationRecords s' = _queuedMutationRecords s
  ∧ _mutationObserver s' = _mutationObserver s
  ∧ _currentDomFacade s' = _currentDomFacade s
  ∧ touchedSets s' = touchedSets s
  ∧ console s' = console s.

(** States with the same registrations of the observer. *)
Definition sameRegistrations (s s' : XPathInvalidator) : Prop :=
  MutationObserver.registrations (_mutationObserver s')
  = MutationObserver.registrations (_mutationObserver s).

(** No registration of the engine's observer has [characterData]. *)
Definition noCharacterData (s : XPathInvalidator) : Prop :=
  Forall (λ r, MutationObserver.characterData r.2 = false)
         (MutationObserver.registrations (_mutationObserver s)).

(** ** The facade in isolation

    To see what a facade call touches, the facade is given a callback that
    appends each node it is notified of to a list, as a test would. *)

Definition spy : Node → M (list Node) unit := λ node, modify (λ log, log ++ [node]).

Definition touchesOf {A} (m : M (list Node) A) : list Node := snd (m []).
Definition resultOf {A} (m : M (list Node) A) : Completion A := fst (m []).

(** ** Callbacks and states of the examples *)

(** [() => XPathInvalidator.currentDomFacade.getData(node)] *)
Definition readData (node : Node) : Script :=
  CurrentDomFacade (λ f, Call f (GetData node) (λ _, Return)).

(** [() => XPathInvalidator.currentDomFacade.getAttribute(node, name)] *)
Definition readAttribute (node : Node) (name : string) : Script :=
  CurrentDomFacade (λ f, Call f (GetAttribute node name) (λ _, Return)).

(** [() => XPathInvalidator.currentDomFacade.getChildNodes(node)] *)
Definition readChildren (node : Node) : Script :=
  CurrentDomFacade (λ f, Call f (GetChildNodes node None) (λ _, Return)).

(** A callback that reads the data of [node] and then fails. *)
Definition readDataThenFail (node : Node) : Script :=
  CurrentDomFacade (λ f, Call f (GetData node) (λ _, Raise (UserError 7))).

(** The evaluation of component [100] that starts one of component [200]
    and reads on: the data of [2], then the nested evaluation reading the
    data of [3], then the data of [4] through the current facade. *)
Definition nestedEvaluation : Script :=
  CurrentDomFacade (λ f,
    Call f (GetData 2) (λ _,
    RunInInvalidationContext 200 (readData 3)
      (CurrentDomFacade (λ g, Call g (GetData 4) (λ _, Return))))).

(** The document is observed, component [100] has read an attribute of
    element [3], component [200] the children of element [5], and the child
    list of [5] has changed. *)
Definition twoComponents : XPathInvalidator :=
  run [(sampleHost, ObserveInstance (ANode 0));
       (sampleHost, RunInContext 100 (readAttribute 3 "id"));
       (sampleHost, RunInContext 200 (readChildren 5));
       (sampleHost, Mutate MutationObserver.ChildList 5)]
      initial.

(** The document is observed, component [100] has read the attribute [id] of
    element [1], and that attribute was set twice; both records have been
    delivered. *)
Definition mutatedTwice : XPathInvalidator :=
  run [(sampleHost, ObserveInstance (ANode 0));
       (sampleHost, RunInContext 100 (readAttribute 1 "id"));
       (sampleHost, Mutate MutationObserver.Attributes 1);
       (sampleHost, Mutate MutationObserver.Attributes 1);
       (sampleHost, Deliver)]
      initial.

(** Component [100] has read an attribute of element [1] and the children of
    element [3], and both nodes were mutated once. *)
Definition twoMutatedDependencies : XPathInvalidator :=
  run [(sampleHost, ObserveInstance (ANode 0));
       (sampleHost, RunInContext 100
          (CurrentDomFacade (λ f,
             Call f (GetAttribute 1 "id") (λ _,
             Call f (GetChildNodes 3 None) (λ _, Return)))));
       (sampleHost, Mutate MutationObserver.Attributes 1);
       (sampleHost, Mutate MutationObserver.ChildList 3)]
      initial.

(** The end-to-end scenario: the document is observed, component [100] reads
    the data of text node [2], and the data of [2] changes. *)
Definition endToEnd : XPathInvalidator :=
  run [(sampleHost, ObserveInstance (ANode 0));
       (sampleHost, RunInContext 100 (readData 2));
       (sampleHost, Mutate MutationObserver.CharacterData 2)]
      initial.

(** The state inside the callback of a tracked evaluation started from the
    initial state. *)
Definition outerActive : XPathInvalidator := installFacade initial.

(** ** Reads, anchors and predicates used by the further properties *)

(** The node a read notifies the facade's callback of, if any: the node
    itself for the reads of its own properties and children, its parent for
    the sibling and parent reads. *)
Definition touchTarget (h : Host) (r : Read) : option Node :=
  match r with
  | GetAllAttributes node => Some node
  | GetAttribute node _ => Some node
  | GetChildNodes node _ => Some node
  | GetData node => Some node
  | GetFirstChild node _ => Some node
  | GetLastChild node _ => Some node
  | GetNextSibling node _ => parentNode h node
  | GetParentNode node => parentNode h node
  | GetPreviousSibling node _ => parentNode h node
  end.

(** The reads that return: all but [getAllAttributes] on a node without
    [attributes], [getAttribute] on a node without that method (in both
    cases a node that is not an element) and [getLastChild] on a node
    without a [getChildNodes] method. *)
Definition returns (h : Host) (r : Read) : Prop :=
  match r with
  | GetAllAttributes node => is_Some (attributes h node)
  | GetAttribute node _ => is_Some (getAttribute h node)
  | GetLastChild node _ => is_Some (getChildNodes h node)
  | _ => True
  end.

(** The error of a read that does not return. *)
Definition readError (r : Read) : JSError :=
  match r with
  | GetAllAttributes _ => TypeError "undefined is not iterable"
  | GetAttribute _ _ => TypeError "node.getAttribute is not a function"
  | _ => TypeError "node.getChildNodes is not a function"
  end.

(** [() => XPathInvalidator.currentDomFacade.read(...)] *)
Definition readOnce (r : Read) : Script :=
  CurrentDomFacade (λ f, Call f r (λ _, Return)).

(** The test of the child and next-sibling reads on a candidate. *)
Definition matches (h : Host) (bucket : option string) (candidate : Node) : bool :=
  falsy bucket || includes (getBucketsForNode h candidate) bucket.

(** The node [observeInstance] hands to the observer: the document element
    for a document, the node itself otherwise. *)
Definition anchorOf (h : Host) (instanceRoot : Node) : option Node :=
  if decide (nodeType h instanceRoot = DOCUMENT_NODE)
  then documentElement h instanceRoot
  else Some instanceRoot.

(** Every set stored in the two indices is free of duplicates. *)
Definition setsNoDup (s : XPathInvalidator) : Prop :=
  (∀ c l, _dependenciesByComponent s !! c = Some l → NoDup l)
  ∧ (∀ n l, _dependentComponentsByNode s !! n = Some l → NoDup l).

(** The graph of [s'] has every edge and every entry of the graph of [s]. *)
Definition grows (s s' : XPathInvalidator) : Prop :=
  (∀ c n, n ∈ dependenciesOf s c → n ∈ dependenciesOf s' c)
  ∧ (∀ n c, c ∈ dependentsOf s n → c ∈ dependentsOf s' n)
  ∧ (∀ c, tracked s c → tracked s' c)
  ∧ (∀ n, is_Some (_dependentComponentsByNode s !! n) →
          is_Some (_dependentComponentsByNode s' !! n)).

(** States with the same mutation records, delivered or not, and the same
    observer. *)
Definition sameRecords (s s' : XPathInvalidator) : Prop :=
  _queuedMutationRecords s' = _queuedMutationRecords s
  ∧ _mutationObserver s' = _mutationObserver s.

(** The body of the loop of [removeComponent]. *)
Definition deleteDependent (component : Component) (dependency : Node)
  : M XPathInvalidator unit :=
  λ s, match _dependentComponentsByNode s !! dependency with
       | Some siblingComponents =>
           (Normal tt,
            with_dependentComponentsByNode
              (deleteFrom dependency component (_dependentComponentsByNode s)) s)
       | None =>
           (Throw (TypeError "Cannot read properties of undefined (reading 'delete')"), s)
       end.

(** The document is observed, component [100] has read the data of text
    node [2], and an attribute of element [3], which nothing depends on, has
    changed. *)
Definition unrelatedMutation : XPathInvalidator :=
  run [(sampleHost, ObserveInstance (ANode 0));
       (sampleHost, RunInContext 100 (readData 2));
       (sampleHost, Mutate MutationObserver.Attributes 3)]
      initial.

(** The history of the states [sharedDependency]: components [100] and [200]
    have both read the attribute [id] of element [1], which then changed
    once. *)
Definition sharedDependencyHistory : list (Host * HostOp) :=
  [(sampleHost, ObserveInstance (ANode 0));
   (sampleHost, RunInContext 100 (readAttribute 1 "id"));
   (sampleHost, RunInContext 200 (readAttribute 1 "id"));
   (sampleHost, Mutate MutationObserver.Attributes 1)].

(** An evaluation of [outer] that takes its facade, starts an evaluation of
    [inner] with one read, and afterwards reads through the facade it took:
    [() => { const f = currentDomFacade;
             runInInvalidationContext(inner, () => currentDomFacade.rInner(...));
             f.rOuter(...) }] *)
Definition nestedWithCapturedFacade (inner : Component) (rInner rOuter : Read)
  : Script :=
  CurrentDomFacade (λ f,
    RunInInvalidationContext inner (readOnce rInner)
      (Call f rOuter (λ _, Return))).

(** The end-to-end history on any tree: the instance is observed, component
    [c] evaluates one read, and the node [target] is mutated. *)
Definition endToEndHistory (h : Host) (root : Node) (c : Component) (r : Read)
    (ty : MutationObserver.MutationType) (target : Node) : list (Host * HostOp) :=
  [(h, ObserveInstance (ANode root));
   (h, RunInContext c (readOnce r));
   (h, Mutate ty target)].

(** * Part II: lemmas and theorems *)

(** ** Sets *)

Section JSSetFacts.
Context {A : Type} `{EqDecision A}.
Implicit Types (x y : A) (s : list A).

Lemma JSSet_elem_of_add x y s : y ∈ JSSet.add x s ↔ y = x ∨ y ∈ s.
Proof.
  unfold JSSet.add. case_decide.
  - split; [by right | by intros [-> | ?]].
  - rewrite elem_of_app, list_elem_of_singleton. tauto.
Qed.

Lemma JSSet_elem_of_delete x y s : y ∈ JSSet.delete x s ↔ y ≠ x ∧ y ∈ s.
Proof. unfold JSSet.delete. by rewrite list_elem_of_filter. Qed.

Lemma JSSet_NoDup_add x s : NoDup s → NoDup (JSSet.add x s).
Proof.
  intros Hs. unfold JSSet.add. case_decide; [done |].
  apply NoDup_app. split_and!; [done | | apply NoDup_singleton].
  intros y Hy ->%list_elem_of_singleton. done.
Qed.

Lemma JSSet_NoDup_delete x s : NoDup s → NoDup (JSSet.delete x s).
Proof. apply NoDup_filter. Qed.

Lemma JSSet_delete_not_elem x s : x ∉ s → JSSet.delete x s = s.
Proof.
  intros Hx. unfold JSSet.delete. induction s as [| y s IH]; [done |].
  apply not_elem_of_cons in Hx as [Hne Hx].
  rewrite filter_cons_True by congruence. by rewrite IH.
Qed.

Lemma JSSet_delete_idemp x s :
  JSSet.delete x (JSSet.delete x s) = JSSet.delete x s.
Proof.
  apply JSSet_delete_not_elem. rewrite JSSet_elem_of_delete. tauto.
Qed.

End JSSetFacts.

(** ** The facade in isolation *)

Section FacadeFacts.
Variable h : Host.
Import DependencyNotifyingDomFacade.

Lemma touch_parent_spec (node : Node) (log : list Node) :
  match parentNode h node with
  | Some p => spy p
  | None => ret tt
  end log = (Normal tt, log ++ option_list (parentNode h node)).
Proof.
  destruct (parentNode h node); simpl; [done |].
  unfold ret. by rewrite app_nil_r.
Qed.

Lemma getNextSibling_spy node bucket log :
  getNextSibling h spy node bucket log
  = (Normal (nextSiblingLoop h (followingSiblings h node) bucket),
     log ++ option_list (parentNode h node)).
Proof. unfold getNextSibling, bind. by rewrite touch_parent_spec. Qed.

Lemma getPreviousSibling_spy node bucket log :
  getPreviousSibling h spy node bucket log
  = (Normal (previousSiblingLoop h (precedingSiblings h node) bucket),
     log ++ option_list (parentNode h node)).
Proof. unfold getPreviousSibling, bind. by rewrite touch_parent_spec. Qed.

Lemma getParentNode_spy node log :
  getParentNode h spy node log
  = (Normal (parentNode h node), log ++ option_list (parentNode h node)).
Proof. unfold getParentNode, bind. by rewrite touch_parent_spec. Qed.

(** Without a bucket the loop of [getPreviousSibling] skips every sibling. *)
Lemma previousSiblingLoop_undefined chain :
  previousSiblingLoop h chain None = None.
Proof. induction chain as [| x chain IH]; simpl; done. Qed.

(** Without a bucket the loop of [getNextSibling] stops at the first one. *)
Lemma nextSiblingLoop_undefined chain :
  nextSiblingLoop h chain None = head chain.
Proof. by destruct chain. Qed.

Lemma getPreviousSibling_undefined node log :
  fst (getPreviousSibling h spy node None log) = Normal None.
Proof. by rewrite getPreviousSibling_spy, previousSiblingLoop_undefined. Qed.

Lemma getNextSibling_undefined node log :
  fst (getNextSibling h spy node None log) = Normal (nextSibling h node).
Proof. by rewrite getNextSibling_spy, nextSiblingLoop_undefined. Qed.

(** On DOM nodes [getLastChild] notifies its callback and then throws. *)
Lemma getLastChild_dom node bucket log :
  DomConformant h →
  getLastChild h spy node bucket log
  = (Throw (TypeError "node.getChildNodes is not a function"), log ++ [node]).
Proof.
  intros Hdom. unfold getLastChild, bind, lift, callGetChildNodes. simpl.
  by rewrite Hdom.
Qed.
End FacadeFacts.

(** C4. For every node, [getNextSibling], [getPreviousSibling] (with or
    without a bucket) and [getParentNode] notify the callback of the node's
    parent and of nothing else, and of nothing at all when the node has no
    parent; so the node itself is not touched (a node is not its own
    parent). *)
Theorem parent_redirection (h : Host) (node : Node) (bucket : option string) :
  touchesOf (DependencyNotifyingDomFacade.getNextSibling h spy node bucket)
    = option_list (parentNode h node)
  ∧ touchesOf (DependencyNotifyingDomFacade.getPreviousSibling h spy node bucket)
    = option_list (parentNode h node)
  ∧ touchesOf (DependencyNotifyingDomFacade.getParentNode h spy node)
    = option_list (parentNode h node)
  ∧ (parentNode h node = None →
     touchesOf (DependencyNotifyingDomFacade.getNextSibling h spy node bucket) = []
     ∧ touchesOf (DependencyNotifyingDomFacade.getPreviousSibling h spy node bucket) = []
     ∧ touchesOf (DependencyNotifyingDomFacade.getParentNode h spy node) = [])
  ∧ (parentNode h node ≠ Some node →
     (node ∉ touchesOf (DependencyNotifyingDomFacade.getNextSibling h spy node bucket))
     ∧ (node ∉ touchesOf (DependencyNotifyingDomFacade.getPreviousSibling h spy node bucket))
     ∧ (node ∉ touchesOf (DependencyNotifyingDomFacade.getParentNode h spy node))).
Proof.
  unfold touchesOf.
  rewrite getNextSibling_spy, getPreviousSibling_spy, getParentNode_spy. simpl.
  split_and!; try done.
  - by intros ->.
  - intros Hne. destruct (parentNode h node) as [p |]; simpl.
    + rewrite list_elem_of_singleton. split_and!; congruence.
    + split_and!; apply not_elem_of_nil.
Qed.

(** In the sample tree node [3] has the parent [1]: its sibling and parent
    reads touch [1], not [3]. *)
Lemma parent_redirection_witness :
  touchesOf (DependencyNotifyingDomFacade.getNextSibling sampleHost spy 3 None) = [1]
  ∧ (3 ∉ touchesOf (DependencyNotifyingDomFacade.getPreviousSibling sampleHost spy 3 None))
  ∧ touchesOf (DependencyNotifyingDomFacade.getParentNode sampleHost spy 0) = [].
Proof.
  destruct (parent_redirection sampleHost 3 None) as (Hn & _ & _ & _ & Hself).
  destruct (parent_redirection sampleHost 0 None) as (_ & _ & _ & Hroot & _).
  split_and!.
  - exact Hn.
  - apply Hself. vm_compute. discriminate.
  - apply Hroot. reflexivity.
Defined.

(** C7. On the sample tree: [getLastChild] of element [1], whose children are
    [2; 3; 4], throws instead of returning [4]; [getPreviousSibling] of node
    [4] without a bucket returns [null] although its previous sibling is [3],
    where [getNextSibling] of node [2] without a bucket returns its next
    sibling [3]. *)
Theorem lastChild_and_previousSibling_diverge :
  childNodes sampleHost 1 = [2; 3; 4]
  ∧ resultOf (DependencyNotifyingDomFacade.getLastChild sampleHost spy 1 None)
    = Throw (TypeError "node.getChildNodes is not a function")
  ∧ previousSibling sampleHost 4 = Some 3
  ∧ resultOf (DependencyNotifyingDomFacade.getPreviousSibling sampleHost spy 4 None)
    = Normal None
  ∧ resultOf (DependencyNotifyingDomFacade.getNextSibling sampleHost spy 2 None)
    = Normal (nextSibling sampleHost 2).
Proof.
  unfold resultOf. split_and!.
  - reflexivity.
  - by rewrite getLastChild_dom.
  - reflexivity.
  - apply getPreviousSibling_undefined.
  - apply getNextSibling_undefined.
Qed.

(** ** Loops *)

Section Loops.
Context {S A : Type}.

(** A property that every round keeps, however the round ends, holds when
    the loop ends, however it ends. *)
Lemma forOf_preserves (P : S → Prop) (body : A → M S unit) (l : list A) :
  (∀ x s, P s → P (snd (body x s))) →
  ∀ s, P s → P (snd (forOf l body s)).
Proof.
  intros Hbody. induction l as [| x l IH]; intros s Hs; [done |].
  simpl. unfold bind. specialize (Hbody x s Hs).
  destruct (body x s) as [[[] | e] s']; simpl in *; auto.
Qed.

(** A loop whose rounds cannot throw. *)
Lemma forOf_modify (f : A → S → S) (l : list A) (s : S) :
  forOf l (λ x, modify (f x)) s = (Normal tt, foldl (λ s x, f x s) s l).
Proof.
  revert s. induction l as [| x l IH]; intros s; [done |].
  simpl. unfold bind, modify at 1. apply IH.
Qed.
End Loops.

(** ** The graph after each operation *)

Lemma recordDependency_modify c :
  recordDependency c = λ n, modify (recorded c n).
Proof. reflexivity. Qed.

Lemma getOrDefault_lookup (m : gmap nat (list nat)) (k k' : nat) :
  (getOrDefault m k).2 !! k'
  = if decide (k' = k) then Some (default [] (m !! k)) else m !! k'.
Proof.
  unfold getOrDefault. destruct (m !! k) as [set |] eqn:Hk; simpl.
  - case_decide; by subst.
  - rewrite lookup_insert. repeat case_decide; congruence.
Qed.

Lemma recorded_dependentsOf c n s n' :
  dependentsOf (recorded c n s) n'
  = if decide (n' = n) then JSSet.add c (dependentsOf s n) else dependentsOf s n'.
Proof.
  unfold recorded, recordDependency, modify, dependentsOf. simpl.
  pose proof (getOrDefault_lookup (_dependentComponentsByNode s) n) as Hl.
  destruct (getOrDefault (_dependentComponentsByNode s) n) as [set byNode].
  simpl in *. unfold addTo. rewrite lookup_alter.
  case_decide; subst; rewrite Hl; case_decide; done.
Qed.

Lemma recorded_dependenciesOf c n s c' :
  tracked s c →
  dependenciesOf (recorded c n s) c'
  = if decide (c' = c) then JSSet.add n (dependenciesOf s c) else dependenciesOf s c'.
Proof.
  intros [set Hset].
  unfold recorded, recordDependency, modify, dependenciesOf. simpl.
  destruct (getOrDefault (_dependentComponentsByNode s) n) as [set' byNode].
  simpl. unfold addTo. rewrite lookup_alter.
  repeat case_decide; subst; try done. by rewrite Hset.
Qed.

Lemma recorded_tracked c n s c' : tracked s c' → tracked (recorded c n s) c'.
Proof.
  unfold tracked, recorded, recordDependency, modify. simpl.
  destruct (getOrDefault (_dependentComponentsByNode s) n) as [set' byNode].
  simpl. unfold addTo. rewrite lookup_alter.
  case_decide; [subst | done]. intros [x ->]. by eexists.
Qed.

(** The merge loop adds exactly the edges between [c] and the touched nodes,
    in both indices. *)
Lemma merged_spec c (touched : list Node) s :
  tracked s c →
  let s' := foldl (λ s n, recorded c n s) s touched in
  tracked s' c
  ∧ (∀ c' n, n ∈ dependenciesOf s' c' ↔
             n ∈ dependenciesOf s c' ∨ (c' = c ∧ n ∈ touched))
  ∧ (∀ n c', c' ∈ dependentsOf s' n ↔
             c' ∈ dependentsOf s n ∨ (c' = c ∧ n ∈ touched)).
Proof.
  revert s. induction touched as [| x touched IH]; intros s Htr; simpl.
  - split_and!; [done | |]; intros; rewrite elem_of_nil; tauto.
  - destruct (IH (recorded c x s) (recorded_tracked c x s c Htr)) as (Ht & Hd & Hn).
    split_and!; [done | |].
    + intros c' n. rewrite Hd, recorded_dependenciesOf by done.
      rewrite elem_of_cons. case_decide; subst.
      * rewrite JSSet_elem_of_add. tauto.
      * tauto.
    + intros n c'. rewrite Hn, recorded_dependentsOf.
      rewrite elem_of_cons. case_decide; subst.
      * rewrite JSSet_elem_of_add. tauto.
      * split; [intros [? | [? ?]]; auto | intros [? | [? [? | ?]]]; auto].
        congruence.
Qed.

Lemma runInInvalidationContext_unfold c callback s :
  runInInvalidationContext c callback s
  = match callback (installFacade s) with
    | (Normal _, s1) =>
        (Normal tt, mergeTouched c {| touchedNodes := length (touchedSets s) |} s1)
    | (Throw e, s1) => (Throw e, s1)
    end.
Proof.
  unfold runInInvalidationContext, bind, modify at 1. simpl.
  fold (installFacade s).
  destruct (callback (installFacade s)) as [[[] | e] s1]; [| done].
  destruct (getOrDefault (_dependenciesByComponent s1) c) as [set byComponent] eqn:Hg.
  unfold gets. rewrite recordDependency_modify, forOf_modify.
  unfold modify, mergeTouched, touchedBy. by rewrite Hg.
Qed.

Lemma tracked_getOrDefault c s :
  tracked (with_dependenciesByComponent
             (getOrDefault (_dependenciesByComponent s) c).2 s) c.
Proof.
  unfold tracked. simpl. rewrite getOrDefault_lookup.
  case_decide; [by eexists | done].
Qed.

Lemma dependenciesOf_getOrDefault c s c' :
  dependenciesOf (with_dependenciesByComponent
                    (getOrDefault (_dependenciesByComponent s) c).2 s) c'
  = dependenciesOf s c'.
Proof.
  unfold dependenciesOf. simpl. rewrite getOrDefault_lookup.
  case_decide; by subst.
Qed.

(** After the merge: the slot is empty and the graph has gained exactly the
    edges between [c] and the nodes touched through [f]. *)
Lemma mergeTouched_spec c f s :
  let s' := mergeTouched c f s in
  _currentDomFacade s' = None
  ∧ tracked s' c
  ∧ (∀ c' n, n ∈ dependenciesOf s' c' ↔
             n ∈ dependenciesOf s c' ∨ (c' = c ∧ n ∈ touchedBy f s))
  ∧ (∀ n c', c' ∈ dependentsOf s' n ↔
             c' ∈ dependentsOf s n ∨ (c' = c ∧ n ∈ touchedBy f s)).
Proof.
  unfold mergeTouched.
  destruct (merged_spec c (touchedBy f s) _ (tracked_getOrDefault c s))
    as (Ht & Hd & Hn).
  split_and!; [done | done | |].
  - intros c' n. etrans; [apply Hd |]. by rewrite dependenciesOf_getOrDefault.
  - intros n c'. etrans; [apply Hn |]. done.
Qed.

Lemma mergeTouched_symmetric c f s : symmetric s → symmetric (mergeTouched c f s).
Proof.
  intros Hs c' n. destruct (mergeTouched_spec c f s) as (_ & _ & Hd & Hn).
  rewrite Hd, Hn, (Hs c' n). done.
Qed.

(** ** [removeComponent] *)

Lemma deleteFrom_fold_lookup c (l : list Node) (m : gmap nat (list nat)) n :
  foldl (λ m n, deleteFrom n c m) m l !! n
  = if decide (n ∈ l) then JSSet.delete c <$> m !! n else m !! n.
Proof.
  revert m. induction l as [| x l IH]; intros m; simpl; [done |].
  rewrite IH. unfold deleteFrom. rewrite lookup_alter.
  destruct (decide (n ∈ x :: l)) as [Hin | Hnin].
  - destruct (decide (n ∈ l)) as [Hl | Hl]; destruct (decide (x = n)) as [-> | Hx];
      try done.
    + destruct (m !! n); simpl; [| done]. by rewrite JSSet_delete_idemp.
    + apply elem_of_cons in Hin as [? | ?]; [congruence | done].
  - apply not_elem_of_cons in Hnin as [Hx Hl].
    rewrite (decide_False (P := n ∈ l)) by done.
    by rewrite (decide_False (P := x = n)) by congruence.
Qed.

Lemma removeComponent_untracked c s :
  _dependenciesByComponent s !! c = None →
  removeComponent c s = (Throw (TypeError "undefined is not iterable"), s).
Proof. intros Hc. unfold removeComponent, bind. by rewrite Hc. Qed.

Lemma removeComponent_loop c (l : list Node) s :
  (∀ n, n ∈ l → is_Some (_dependentComponentsByNode s !! n)) →
  forOf l
    (λ dependency s,
       match _dependentComponentsByNode s !! dependency with
       | Some siblingComponents =>
           (Normal tt,
            with_dependentComponentsByNode
              (deleteFrom dependency c (_dependentComponentsByNode s)) s)
       | None =>
           (Throw (TypeError "Cannot read properties of undefined (reading 'delete')"), s)
       end) s
  = (Normal tt,
     with_dependentComponentsByNode
       (foldl (λ m n, deleteFrom n c m) (_dependentComponentsByNode s) l) s).
Proof.
  revert s. induction l as [| x l IH]; intros s Hall; simpl.
  - by destruct s.
  - unfold bind. destruct (Hall x) as [set Hset]; [by left |].
    rewrite Hset. rewrite IH; [done |].
    intros n Hn. simpl. unfold deleteFrom. rewrite lookup_alter.
    destruct (Hall n) as [set' Hset']; [by right |].
    case_decide; subst; rewrite Hset'; by eexists.
Qed.

Lemma removeComponent_tracked c dependencies s :
  _dependenciesByComponent s !! c = Some dependencies →
  (∀ n, n ∈ dependencies → is_Some (_dependentComponentsByNode s !! n)) →
  removeComponent c s = (Normal tt, evicted c dependencies s).
Proof.
  intros Hc Hall. unfold removeComponent, bind at 1. rewrite Hc.
  unfold bind. by rewrite removeComponent_loop.
Qed.

Lemma evicted_dependenciesOf c l s c' :
  dependenciesOf (evicted c l s) c'
  = if decide (c' = c) then [] else dependenciesOf s c'.
Proof.
  unfold dependenciesOf, evicted. simpl. rewrite lookup_delete.
  repeat case_decide; subst; done.
Qed.

Lemma evicted_dependentsOf c l s n :
  dependentsOf (evicted c l s) n
  = if decide (n ∈ l) then JSSet.delete c (dependentsOf s n) else dependentsOf s n.
Proof.
  unfold dependentsOf, evicted. simpl. rewrite deleteFrom_fold_lookup.
  case_decide; [| done]. by destruct (_dependentComponentsByNode s !! n).
Qed.

(** In a symmetric graph every dependency of a component has an entry in the
    other index. *)
Lemma symmetric_dependents_entry s c dependencies n :
  symmetric s →
  _dependenciesByComponent s !! c = Some dependencies →
  n ∈ dependencies →
  is_Some (_dependentComponentsByNode s !! n).
Proof.
  intros Hs Hc Hn. specialize (Hs c n).
  unfold dependenciesOf, dependentsOf in Hs. rewrite Hc in Hs. simpl in Hs.
  apply Hs in Hn. destruct (_dependentComponentsByNode s !! n); [by eexists |].
  by apply elem_of_nil in Hn.
Qed.

Lemma evicted_symmetric c dependencies s :
  symmetric s →
  _dependenciesByComponent s !! c = Some dependencies →
  symmetric (evicted c dependencies s).
Proof.
  intros Hs Hc c' n.
  rewrite evicted_dependenciesOf, evicted_dependentsOf.
  assert (Hdeps : dependenciesOf s c = dependencies)
    by (unfold dependenciesOf; by rewrite Hc).
  destruct (decide (c' = c)) as [-> | Hne].
  - rewrite elem_of_nil. case_decide.
    + rewrite JSSet_elem_of_delete. tauto.
    + rewrite <- (Hs c n), Hdeps. tauto.
  - case_decide.
    + rewrite JSSet_elem_of_delete, (Hs c' n). tauto.
    + apply Hs.
Qed.

(** [removeComponent] keeps the graph symmetric, whether it returns or
    throws. *)
Lemma removeComponent_symmetric c s :
  symmetric s → symmetric (snd (removeComponent c s)).
Proof.
  intros Hs. destruct (_dependenciesByComponent s !! c) as [l |] eqn:Hc.
  - rewrite (removeComponent_tracked c l) by eauto using symmetric_dependents_entry.
    by apply evicted_symmetric.
  - by rewrite removeComponent_untracked.
Qed.

(** ** [getInvalidatedComponents] *)

Lemma getInvalidatedComponents_unfold s :
  getInvalidatedComponents s
  = match forOf (collected s) removeComponent (drained s) with
    | (Normal _, s') => (Normal (collected s), s')
    | (Throw e, s') => (Throw e, s')
    end.
Proof. reflexivity. Qed.

(** ** Symmetry of the two indices *)

Lemma symmetric_sameGraph s s' : sameGraph s s' → symmetric s → symmetric s'.
Proof.
  intros [Hc Hn] Hs c n. unfold dependenciesOf, dependentsOf.
  rewrite Hc, Hn. apply Hs.
Qed.

Lemma sameGraph_refl s : sameGraph s s.
Proof. done. Qed.

Lemma sameGraph_onNodeTouched f node s : sameGraph s (snd (onNodeTouched f node s)).
Proof. done. Qed.

(** Every read of the facade notifies its callback at most once and then
    returns or throws: a property of the state that a notification keeps is
    kept by the read. The tactic goes through the cases of one read. *)
Ltac facade_cases :=
  unfold facadeRead, bind;
  unfold DependencyNotifyingDomFacade.getAllAttributes,
    DependencyNotifyingDomFacade.getAttribute,
    DependencyNotifyingDomFacade.getChildNodes,
    DependencyNotifyingDomFacade.getData,
    DependencyNotifyingDomFacade.getFirstChild,
    DependencyNotifyingDomFacade.getLastChild,
    DependencyNotifyingDomFacade.getNextSibling,
    DependencyNotifyingDomFacade.getParentNode,
    DependencyNotifyingDomFacade.getPreviousSibling,
    bind, lift, ret, onNodeTouched, modify;
  repeat case_match; simplify_eq; done.

Lemma sameGraph_facadeRead h f r s : sameGraph s (snd (facadeRead h f r s)).
Proof.
  destruct r; facade_cases.
Qed.

Lemma sameGraph_readThrough h f r s : sameGraph s (snd (readThrough h f r s)).
Proof. destruct f; [apply sameGraph_facadeRead | done]. Qed.

Lemma sameGraph_currentDomFacade s : sameGraph s (snd (currentDomFacade s)).
Proof. unfold currentDomFacade. by destruct (_currentDomFacade s). Qed.

Lemma sameGraph_installFacade s : sameGraph s (installFacade s).
Proof. done. Qed.

Lemma sameGraph_drained s : sameGraph s (drained s).
Proof. done. Qed.

Lemma sameGraph_observeInstance h root s : sameGraph s (snd (observeInstance h root s)).
Proof.
  unfold observeInstance. destruct root as [n |]; [| done].
  destruct (if decide (nodeType h n = DOCUMENT_NODE) then documentElement h n else Some n);
    [| done].
  by destruct (MutationObserver.observe _ _ _).
Qed.

Lemma runInInvalidationContext_symmetric c callback :
  (∀ s, symmetric s → symmetric (snd (callback s))) →
  ∀ s, symmetric s → symmetric (snd (runInInvalidationContext c callback s)).
Proof.
  intros Hcb s Hs. rewrite runInInvalidationContext_unfold.
  specialize (Hcb (installFacade s)
                (symmetric_sameGraph _ _ (sameGraph_installFacade s) Hs)).
  destruct (callback (installFacade s)) as [[[] | e] s1]; simpl in *; [| done].
  by apply mergeTouched_symmetric.
Qed.

Lemma exec_symmetric h p : ∀ s, symmetric s → symmetric (snd (exec h p s)).
Proof.
  induction p as [| e | k IH | f r k IH | c callback IHcb k IHk]; intros s Hs; simpl.
  - done.
  - done.
  - unfold bind.
    pose proof (symmetric_sameGraph _ _ (sameGraph_currentDomFacade s) Hs) as Hs'.
    destruct (currentDomFacade s) as [[f | e] s']; simpl in *; auto.
  - unfold bind.
    pose proof (symmetric_sameGraph _ _ (sameGraph_readThrough h f r s) Hs) as Hs'.
    destruct (readThrough h f r s) as [[v | e] s']; simpl in *; auto.
  - unfold bind.
    pose proof (runInInvalidationContext_symmetric c _ IHcb s Hs) as Hs'.
    destruct (runInInvalidationContext c (exec h callback) s) as [[[] | e] s'];
      simpl in *; auto.
Qed.

Lemma getInvalidatedComponents_symmetric s :
  symmetric s → symmetric (snd (getInvalidatedComponents s)).
Proof.
  intros Hs. rewrite getInvalidatedComponents_unfold.
  pose proof (forOf_preserves symmetric removeComponent (collected s)
                (λ c s, removeComponent_symmetric c s) (drained s)
                (symmetric_sameGraph _ _ (sameGraph_drained s) Hs)) as Hs'.
  by destruct (forOf (collected s) removeComponent (drained s)) as [[[] | e] s'].
Qed.

Lemma step_symmetric h op s : symmetric s → symmetric (step h op s).
Proof.
  intros Hs. destruct op; simpl.
  - eapply symmetric_sameGraph; [apply sameGraph_observeInstance | done].
  - by apply runInInvalidationContext_symmetric; [apply exec_symmetric |].
  - by apply getInvalidatedComponents_symmetric.
  - by apply removeComponent_symmetric.
  - eapply symmetric_sameGraph; [apply sameGraph_currentDomFacade | done].
  - done.
  - unfold deliver. by destruct (MutationObserver.takeRecords _).
Qed.

Lemma initial_symmetric : symmetric initial.
Proof.
  intros c n. unfold dependenciesOf, dependentsOf, initial.
  cbn [_dependenciesByComponent _dependentComponentsByNode].
  rewrite !lookup_empty. simpl. by rewrite !elem_of_nil.
Qed.

Lemma run_symmetric history : ∀ s, symmetric s → symmetric (run history s).
Proof.
  induction history as [| [h op] history IH]; intros s Hs; [done |].
  apply IH. by apply step_symmetric.
Qed.

(** C2. The two indices mirror each other in the initial state; every step
    of the host (a tracked evaluation, a drain, an eviction, and also an
    observation, a read of the current facade, a mutation of the tree or a
    delivery of records) leads from a symmetric state to a symmetric state,
    whether the call returns or throws; hence they mirror each other after
    every history of steps from the initial state. *)
Theorem symmetry_invariant :
  symmetric initial
  ∧ (∀ h op s, symmetric s → symmetric (step h op s))
  ∧ (∀ history c n,
       n ∈ dependenciesOf (run history initial) c
       ↔ c ∈ dependentsOf (run history initial) n).
Proof.
  split_and!.
  - apply initial_symmetric.
  - apply step_symmetric.
  - intros history. apply run_symmetric, initial_symmetric.
Qed.

(** The drain of [mutatedTwice] throws, and leaves a symmetric graph; so is
    the graph of [twoComponents], reached by four steps. *)
Lemma symmetry_invariant_witness :
  symmetric (step sampleHost GetInvalidatedComponents mutatedTwice)
  ∧ (∀ c n, n ∈ dependenciesOf twoComponents c ↔ c ∈ dependentsOf twoComponents n).
Proof.
  destruct symmetry_invariant as (_ & Hstep & Hrun). split.
  - apply Hstep. intros c n.
    exact (Hrun [(sampleHost, ObserveInstance (ANode 0));
                 (sampleHost, RunInContext 100 (readAttribute 1 "id"));
                 (sampleHost, Mutate MutationObserver.Attributes 1);
                 (sampleHost, Mutate MutationObserver.Attributes 1);
                 (sampleHost, Deliver)] c n).
  - exact (Hrun [(sampleHost, ObserveInstance (ANode 0));
                 (sampleHost, RunInContext 100 (readAttribute 3 "id"));
                 (sampleHost, RunInContext 200 (readChildren 5));
                 (sampleHost, Mutate MutationObserver.ChildList 5)]).
Defined.

(** ** Tracked evaluation: the two ways out *)

(** C1, as the code has it. When the callback returns, the call returns with
    the slot empty and every node touched through its facade merged into the
    dependencies of [c], with the reverse edge. When the callback throws, the
    call throws the same error and merges nothing: the two indices are the
    ones the callback left. *)
Theorem tracked_evaluation_exits (c : Component)
    (callback : M XPathInvalidator unit) (s : XPathInvalidator) :
  (∀ s1, callback (installFacade s) = (Normal tt, s1) →
     ∃ s2, runInInvalidationContext c callback s = (Normal tt, s2)
           ∧ _currentDomFacade s2 = None
           ∧ ∀ n, n ∈ touchedBy {| touchedNodes := length (touchedSets s) |} s1 →
                  n ∈ dependenciesOf s2 c ∧ c ∈ dependentsOf s2 n)
  ∧ (∀ e s1, callback (installFacade s) = (Throw e, s1) →
       ∃ s2, runInInvalidationContext c callback s = (Throw e, s2)
             ∧ sameGraph s1 s2).
Proof.
  split.
  - intros s1 Hcb. rewrite runInInvalidationContext_unfold, Hcb.
    eexists. split; [reflexivity |].
    destruct (mergeTouched_spec c {| touchedNodes := length (touchedSets s) |} s1)
      as (Hslot & _ & Hd & Hn).
    split; [done |]. intros n Hin. rewrite Hd, Hn. auto.
  - intros e s1 Hcb. rewrite runInInvalidationContext_unfold, Hcb.
    by eexists.
Qed.

(** From the initial state, a callback that reads the data of text node [2]
    and returns: the call returns, the slot is empty, and [2] is a dependency
    of component [100]. *)
Lemma tracked_evaluation_exits_witness :
  ∃ s2, runInInvalidationContext 100 (exec sampleHost (readData 2)) initial
        = (Normal tt, s2)
        ∧ _currentDomFacade s2 = None
        ∧ ∀ n, n ∈ [2] → n ∈ dependenciesOf s2 100 ∧ 100 ∈ dependentsOf s2 n.
Proof.
  exact (proj1 (tracked_evaluation_exits 100 (exec sampleHost (readData 2)) initial)
           _ eq_refl).
Defined.

(** C1 fails as stated. From the initial state, a callback reads the data of
    text node [2] and then throws: the error reaches the caller with the slot
    still holding the facade of the call, and with the touched node [2] in
    the facade's set but, here, in neither index. *)
Lemma failing_evaluation_leaves_slot_populated :
  fst (runInInvalidationContext 100 (exec sampleHost (readDataThenFail 2)) initial)
  = Throw (UserError 7)
  ∧ _currentDomFacade
      (snd (runInInvalidationContext 100 (exec sampleHost (readDataThenFail 2)) initial))
    = Some {| touchedNodes := 0 |}
  ∧ touchedBy {| touchedNodes := 0 |}
      (snd (runInInvalidationContext 100 (exec sampleHost (readDataThenFail 2)) initial))
    = [2]
  ∧ dependenciesOf
      (snd (runInInvalidationContext 100 (exec sampleHost (readDataThenFail 2)) initial))
      100 = []
  ∧ dependentsOf
      (snd (runInInvalidationContext 100 (exec sampleHost (readDataThenFail 2)) initial))
      2 = [].
Proof. split_and!; reflexivity. Qed.

(** ** Eviction of a component that is not tracked *)

(** C6. [removeComponent] on a component without an entry in
    [_dependenciesByComponent] throws a [TypeError] (it iterates over
    [undefined]); the state is left as it was. *)
Theorem removeComponent_without_dependencies_throws
    (c : Component) (s : XPathInvalidator) :
  _dependenciesByComponent s !! c = None →
  removeComponent c s = (Throw (TypeError "undefined is not iterable"), s).
Proof. apply removeComponent_untracked. Qed.

Lemma removeComponent_without_dependencies_throws_witness :
  removeComponent 7 initial = (Throw (TypeError "undefined is not iterable"), initial).
Proof.
  exact (removeComponent_without_dependencies_throws 7 initial eq_refl).
Defined.

(** ** Draining *)

(** C8. Component [A] depends on node [p] alone, component [B] on another
    node [q] alone and nothing else depends on [q]; the one pending record is
    a mutation of [q]. Then the drain returns exactly [B]; [A] keeps its entry
    with the single dependency [p], [p] keeps its dependents, [B] has lost its
    entry and nothing is pending any more. *)
Theorem precise_invalidation (s : XPathInvalidator) (A B : Component) (p q : Node)
    (ty : MutationObserver.MutationType) :
  A ≠ B →
  p ≠ q →
  _dependenciesByComponent s !! A = Some [p] →
  _dependenciesByComponent s !! B = Some [q] →
  dependentsOf s q = [B] →
  pending s = [{| MutationObserver.type := ty; MutationObserver.target := q |}] →
  ∃ s', getInvalidatedComponents s = (Normal [B], s')
        ∧ _dependenciesByComponent s' !! A = Some [p]
        ∧ dependenciesOf s' A = [p]
        ∧ dependentsOf s' p = dependentsOf s p
        ∧ _dependenciesByComponent s' !! B = None
        ∧ pending s' = [].
Proof.
  intros HAB Hpq HA HB Hq Hpend.
  assert (Hentry : _dependentComponentsByNode s !! q = Some [B]).
  { unfold dependentsOf in Hq.
    destruct (_dependentComponentsByNode s !! q); simpl in Hq; by subst. }
  assert (Hcol : collected s = [B]).
  { unfold collected. rewrite Hpend. simpl. by rewrite Hentry. }
  rewrite getInvalidatedComponents_unfold, Hcol. simpl. unfold bind.
  rewrite (removeComponent_tracked B [q]); [| done |].
  2: { intros n ->%list_elem_of_singleton. simpl. by rewrite Hentry. }
  simpl. eexists. split; [reflexivity |].
  assert (HA' : _dependenciesByComponent (evicted B [q] (drained s)) !! A = Some [p]).
  { simpl. by rewrite lookup_delete_ne. }
  split_and!.
  - done.
  - unfold dependenciesOf. by rewrite HA'.
  - rewrite evicted_dependentsOf. rewrite decide_False; [done |].
    by intros ->%list_elem_of_singleton.
  - simpl. apply lookup_delete_eq.
  - reflexivity.
Qed.

Lemma precise_invalidation_witness :
  ∃ s', getInvalidatedComponents twoComponents = (Normal [200], s')
        ∧ _dependenciesByComponent s' !! 100 = Some [3]
        ∧ dependenciesOf s' 100 = [3]
        ∧ dependentsOf s' 3 = dependentsOf twoComponents 3
        ∧ _dependenciesByComponent s' !! 200 = None
        ∧ pending s' = [].
Proof.
  apply (precise_invalidation twoComponents 100 200 3 5 MutationObserver.ChildList).
  - lia.
  - lia.
  - reflexivity.
  - reflexivity.
  - reflexivity.
  - reflexivity.
Defined.

Lemma evicted_tracked c dependencies s c' :
  tracked (evicted c dependencies s) c' ↔ c' ≠ c ∧ tracked s c'.
Proof.
  unfold tracked, evicted. simpl. rewrite lookup_delete.
  case_decide; subst.
  - split; [by intros [? ?] | by intros [? _]].
  - split; [by intros ? | by intros [_ ?]].
Qed.

(** The eviction loop of a drain over a list of components, in a symmetric
    graph: it returns exactly when no component is repeated and each has an
    entry; otherwise it throws the [TypeError] of [removeComponent]. *)
Lemma eviction_loop_result (l : list Component) :
  ∀ s, symmetric s →
    (fst (forOf l removeComponent s) = Normal tt
     ↔ NoDup l ∧ ∀ c, c ∈ l → tracked s c)
    ∧ (fst (forOf l removeComponent s) = Normal tt
       ∨ fst (forOf l removeComponent s) = Throw (TypeError "undefined is not iterable")).
Proof.
  induction l as [| c l IH]; intros s Hs.
  - simpl. split; [| by left]. split; [intros _ | done].
    split; [apply NoDup_nil_2 | by intros c ?%elem_of_nil].
  - simpl. unfold bind.
    destruct (_dependenciesByComponent s !! c) as [dependencies |] eqn:Hc.
    + rewrite (removeComponent_tracked c dependencies)
        by eauto using symmetric_dependents_entry.
      destruct (IH (evicted c dependencies s) (evicted_symmetric _ _ _ Hs Hc))
        as [Hiff Hor].
      split; [| done]. rewrite Hiff, NoDup_cons. split.
      * intros [Hnd Hall]. split_and!; [| done |].
        -- intros Hin. by apply Hall, evicted_tracked in Hin as [? _].
        -- intros c' [-> | Hin]%elem_of_cons; [by eexists |].
           by apply Hall, evicted_tracked in Hin as [_ ?].
      * intros [[Hnin Hnd] Hall]. split; [done |].
        intros c' Hin. apply evicted_tracked. split.
        -- by intros ->.
        -- apply Hall. by right.
    + rewrite removeComponent_untracked by done. simpl.
      split; [| by right]. split; [done |].
      intros [_ Hall]. destruct (Hall c) as [x Hx]; [by left |]. congruence.
Qed.

(** In a symmetric graph every collected component has an entry. *)
Lemma collected_tracked s c : symmetric s → c ∈ collected s → tracked s c.
Proof.
  intros Hs Hin. unfold collected in Hin.
  apply list_elem_of_In, in_flat_map in Hin as (record & _ & Hc).
  apply list_elem_of_In in Hc.
  assert (Hdep : c ∈ dependentsOf s (MutationObserver.target record)).
  { unfold dependentsOf.
    destruct (_dependentComponentsByNode s !! MutationObserver.target record);
      [done | by apply elem_of_nil in Hc]. }
  apply (Hs c) in Hdep. unfold tracked, dependenciesOf in *.
  destruct (_dependenciesByComponent s !! c); [by eexists | by apply elem_of_nil in Hdep].
Qed.

(** In a symmetric graph a drain returns, and then returns the collected
    components, exactly when no component was collected twice; when one was,
    it throws. *)
Lemma drain_returns_iff_no_repetition s :
  symmetric s →
  (NoDup (collected s) ∧ fst (getInvalidatedComponents s) = Normal (collected s))
  ∨ (¬ NoDup (collected s)
     ∧ fst (getInvalidatedComponents s) = Throw (TypeError "undefined is not iterable")).
Proof.
  intros Hs. rewrite getInvalidatedComponents_unfold.
  destruct (eviction_loop_result (collected s) (drained s)
              (symmetric_sameGraph _ _ (sameGraph_drained s) Hs)) as [Hiff Hor].
  destruct (forOf (collected s) removeComponent (drained s)) as [[[] | e] s'] eqn:Hloop;
    simpl in *.
  - left. split; [| done]. by apply Hiff.
  - right. destruct Hor as [? | Hor]; [done |]. injection Hor as ->.
    split; [| done].
    intros Hnd.
    assert (@Throw unit (TypeError "undefined is not iterable") = Normal tt) as Habs;
      [| done].
    apply Hiff. split; [done |]. intros c Hin.
    by apply (collected_tracked s c Hs Hin).
Qed.

(** C3. A node mutated twice, or two mutated nodes with a common dependent:
    the drain collects component [100] twice, evicts it, and throws at the
    second eviction instead of returning it once; the pending records are
    gone. *)
Theorem drain_faults_on_repeated_component :
  collected mutatedTwice = [100; 100]
  ∧ fst (getInvalidatedComponents mutatedTwice)
    = Throw (TypeError "undefined is not iterable")
  ∧ pending (snd (getInvalidatedComponents mutatedTwice)) = []
  ∧ dependenciesOf (snd (getInvalidatedComponents mutatedTwice)) 100 = []
  ∧ collected twoMutatedDependencies = [100; 100]
  ∧ fst (getInvalidatedComponents twoMutatedDependencies)
    = Throw (TypeError "undefined is not iterable").
Proof. split_and!; reflexivity. Qed.

(** ** What the observer is asked to record *)

(** The options of [observeInstance] as the observer reads them: no
    [characterData]. *)
Lemma observeOptions_init :
  MutationObserver.toInit observeOptions
  = {| MutationObserver.childList := true;
       MutationObserver.attributes := true;
       MutationObserver.characterData := false;
       MutationObserver.subtree := true |}.
Proof. reflexivity. Qed.

Lemma sameRegistrations_trans s1 s2 s3 :
  sameRegistrations s1 s2 → sameRegistrations s2 s3 → sameRegistrations s1 s3.
Proof. unfold sameRegistrations. congruence. Qed.

Lemma sameRegistrations_recorded c n s : sameRegistrations s (recorded c n s).
Proof.
  unfold sameRegistrations, recorded, recordDependency, modify. simpl.
  by destruct (getOrDefault (_dependentComponentsByNode s) n).
Qed.

Lemma sameRegistrations_mergeTouched c f s : sameRegistrations s (mergeTouched c f s).
Proof.
  unfold mergeTouched.
  assert (Hfold : ∀ l s0, sameRegistrations s s0 →
            sameRegistrations s (foldl (λ s n, recorded c n s) s0 l)).
  { induction l as [| n l IH]; intros s0 H0; [done |]. simpl. apply IH.
    eapply sameRegistrations_trans; [done | apply sameRegistrations_recorded]. }
  by apply (Hfold (touchedBy f s)).
Qed.

Lemma sameRegistrations_facadeRead h f r s :
  sameRegistrations s (snd (facadeRead h f r s)).
Proof.
  destruct r; facade_cases.
Qed.

Lemma sameRegistrations_runInInvalidationContext c callback :
  (∀ s, sameRegistrations s (snd (callback s))) →
  ∀ s, sameRegistrations s (snd (runInInvalidationContext c callback s)).
Proof.
  intros Hcb s. rewrite runInInvalidationContext_unfold.
  specialize (Hcb (installFacade s)).
  destruct (callback (installFacade s)) as [[[] | e] s1]; simpl in *; [| done].
  eapply sameRegistrations_trans; [exact Hcb | apply sameRegistrations_mergeTouched].
Qed.

Lemma sameRegistrations_exec h p : ∀ s, sameRegistrations s (snd (exec h p s)).
Proof.
  induction p as [| e | k IH | f r k IH | c callback IHcb k IHk]; intros s; simpl.
  - done.
  - done.
  - unfold bind.
    assert (Hr : sameRegistrations s (snd (currentDomFacade s)))
      by (unfold currentDomFacade; by destruct (_currentDomFacade s)).
    destruct (currentDomFacade s) as [[f | e] s']; simpl in *; [| done].
    eapply sameRegistrations_trans; [exact Hr | apply IH].
  - unfold bind.
    assert (Hr : sameRegistrations s (snd (readThrough h f r s)))
      by (destruct f; [apply sameRegistrations_facadeRead | done]).
    destruct (readThrough h f r s) as [[v | e] s']; simpl in *; [| done].
    eapply sameRegistrations_trans; [exact Hr | apply IH].
  - unfold bind.
    pose proof (sameRegistrations_runInInvalidationContext c _ IHcb s) as Hr.
    destruct (runInInvalidationContext c (exec h callback) s) as [[[] | e] s'];
      simpl in *; [| done].
    eapply sameRegistrations_trans; [exact Hr | apply IHk].
Qed.

(** [removeComponent] changes the two indices and nothing else. *)
Lemma removeComponent_graphOnly c s : graphOnly s (snd (removeComponent c s)).
Proof.
  unfold removeComponent, bind at 1.
  destruct (_dependenciesByComponent s !! c) as [dependencies |]; [| done].
  unfold bind.
  match goal with
  | |- context [forOf dependencies ?body s] =>
      assert (Hloop : graphOnly s (snd (forOf dependencies body s)));
      [ apply (forOf_preserves (graphOnly s)); [| done];
        intros x s0 H0; by destruct (_dependentComponentsByNode s0 !! x)
      | destruct (forOf dependencies body s) as [[[] | e] s'] ]
  end; unfold graphOnly in *; simpl in *; done.
Qed.

Lemma sameRegistrations_removeComponent c s :
  sameRegistrations s (snd (removeComponent c s)).
Proof.
  destruct (removeComponent_graphOnly c s) as (_ & Ho & _).
  unfold sameRegistrations. by rewrite Ho.
Qed.

Lemma sameRegistrations_getInvalidatedComponents s :
  sameRegistrations s (snd (getInvalidatedComponents s)).
Proof.
  rewrite getInvalidatedComponents_unfold.
  assert (Hloop : sameRegistrations s
                    (snd (forOf (collected s) removeComponent (drained s)))).
  { apply (forOf_preserves (sameRegistrations s)); [| done].
    intros c s0 H0.
    eapply sameRegistrations_trans; [exact H0 | apply sameRegistrations_removeComponent]. }
  by destruct (forOf (collected s) removeComponent (drained s)) as [[[] | e] s'].
Qed.

Lemma register_noCharacterData target i regs :
  MutationObserver.characterData i = false →
  Forall (λ r, MutationObserver.characterData r.2 = false) regs →
  Forall (λ r, MutationObserver.characterData r.2 = false)
         (MutationObserver.register target i regs).
Proof.
  intros Hi. induction 1 as [| [n j] regs Hj Hregs IH]; simpl.
  - by constructor.
  - case_decide; constructor; done.
Qed.

Lemma observeInstance_noCharacterData h root s :
  noCharacterData s → noCharacterData (snd (observeInstance h root s)).
Proof.
  intros Hs. unfold observeInstance. destruct root as [n |]; [| done].
  destruct (if decide (nodeType h n = DOCUMENT_NODE) then documentElement h n else Some n)
    as [root |]; [| done].
  unfold MutationObserver.observe. rewrite observeOptions_init. simpl.
  by apply register_noCharacterData.
Qed.

Lemma step_noCharacterData h op s : noCharacterData s → noCharacterData (step h op s).
Proof.
  intros Hs.
  assert (Hsame : ∀ s', sameRegistrations s s' → noCharacterData s').
  { intros s' Hs'. unfold noCharacterData. by rewrite Hs'. }
  destruct op; simpl.
  - by apply observeInstance_noCharacterData.
  - apply Hsame, sameRegistrations_runInInvalidationContext, sameRegistrations_exec.
  - apply Hsame, sameRegistrations_getInvalidatedComponents.
  - apply Hsame, sameRegistrations_removeComponent.
  - apply Hsame. unfold currentDomFacade. by destruct (_currentDomFacade s).
  - apply Hsame. unfold mutate, MutationObserver.queueRecord, sameRegistrations.
    simpl. by case_match.
  - by apply Hsame.
Qed.

Lemma run_noCharacterData history : ∀ s, noCharacterData s → noCharacterData (run history s).
Proof.
  induction history as [| [h op] history IH]; intros s Hs; [done |].
  apply IH. by apply step_noCharacterData.
Qed.

(** Whatever the history, a change of a node's data is not recorded: the
    state after it is the state before it. *)
Lemma characterData_never_recorded history h target :
  mutate h MutationObserver.CharacterData target (run history initial)
  = run history initial.
Proof.
  pose proof (run_noCharacterData history initial (Forall_nil_2 _)) as Hregs.
  unfold mutate, MutationObserver.queueRecord.
  assert (Hno : MutationObserver.interested h MutationObserver.CharacterData target
                  (_mutationObserver (run history initial)) = false).
  { unfold MutationObserver.interested. unfold noCharacterData in Hregs.
    induction Hregs as [| [root i] regs Hi Hregs IH]; [done |].
    simpl in *. rewrite Hi, IH. by rewrite andb_false_r. }
  rewrite Hno. by destruct (run history initial) as [? ? ? [] ? ? ?].
Qed.

(** C5. In the end-to-end scenario component [100] does depend on text node
    [2], and element [1] is observed with [childList], [attributes] and
    [subtree] but without [characterData] (the options say [data]); the
    change of the data of [2] is not recorded, and the drain returns no
    component, leaving the state as it was, where the claim expects [100]. *)
Theorem data_change_not_observed :
  dependenciesOf endToEnd 100 = [2]
  ∧ MutationObserver.registrations (_mutationObserver endToEnd)
    = [(1, {| MutationObserver.childList := true;
              MutationObserver.attributes := true;
              MutationObserver.characterData := false;
              MutationObserver.subtree := true |})]
  ∧ pending endToEnd = []
  ∧ getInvalidatedComponents endToEnd = (Normal [], endToEnd).
Proof. split_and!; reflexivity. Qed.

(** ** The getter outside a tracked evaluation *)




(** ** A tracked evaluation started inside another *)

(** C10, as the code has it. Called while a facade is in the slot, the call
    does not fail on that account: it puts a new facade, different from the
    one in place, in the slot and runs its callback; it ends as the callback
    ends, and when the callback returns the slot is left empty. *)
Theorem nested_context_replaces_facade (c : Component)
    (callback : M XPathInvalidator unit) (s : XPathInvalidator) (f : Facade) :
  _currentDomFacade s = Some f →
  touchedNodes f < length (touchedSets s) →
  (∃ f', _currentDomFacade (installFacade s) = Some f' ∧ f' ≠ f)
  ∧ fst (runInInvalidationContext c callback s) = fst (callback (installFacade s))
  ∧ (∀ s1, callback (installFacade s) = (Normal tt, s1) →
       _currentDomFacade (snd (runInInvalidationContext c callback s)) = None).
Proof.
  intros Hslot Hlt. split_and!.
  - eexists. split; [reflexivity |]. intros <-. simpl in Hlt. lia.
  - rewrite runInInvalidationContext_unfold.
    by destruct (callback (installFacade s)) as [[[] | e] s1].
  - intros s1 Hcb. rewrite runInInvalidationContext_unfold, Hcb. simpl.
    by destruct (mergeTouched_spec c {| touchedNodes := length (touchedSets s) |} s1).
Qed.

Lemma nested_context_replaces_facade_witness :
  (∃ f', _currentDomFacade (installFacade outerActive) = Some f'
         ∧ f' ≠ {| touchedNodes := 0 |})
  ∧ fst (runInInvalidationContext 200 (exec sampleHost (readData 3)) outerActive)
    = fst (exec sampleHost (readData 3) (installFacade outerActive))
  ∧ (∀ s1, exec sampleHost (readData 3) (installFacade outerActive) = (Normal tt, s1) →
       _currentDomFacade
         (snd (runInInvalidationContext 200 (exec sampleHost (readData 3)) outerActive))
       = None).
Proof.
  apply (nested_context_replaces_facade 200 (exec sampleHost (readData 3))
           outerActive {| touchedNodes := 0 |}).
  - reflexivity.
  - simpl. lia.
Defined.

(** C10 fails as stated. With the facade of an outer evaluation in the slot,
    a second call returns normally: it has overwritten the slot, recorded its
    own dependency and emptied the slot. Run as a whole, the outer evaluation
    finds the slot empty after the inner one: the getter warns and returns
    [null], the outer read throws, and the outer component is left without
    dependencies. *)
Lemma nested_context_not_rejected :
  _currentDomFacade outerActive = Some {| touchedNodes := 0 |}
  ∧ fst (runInInvalidationContext 200 (exec sampleHost (readData 3)) outerActive)
    = Normal tt
  ∧ touchedSets (snd (runInInvalidationContext 200 (exec sampleHost (readData 3)) outerActive))
    = [[]; [3]]
  ∧ dependenciesOf
      (snd (runInInvalidationContext 200 (exec sampleHost (readData 3)) outerActive)) 200
    = [3]
  ∧ _currentDomFacade
      (snd (runInInvalidationContext 200 (exec sampleHost (readData 3)) outerActive))
    = None
  ∧ fst (runInInvalidationContext 100 (exec sampleHost nestedEvaluation) initial)
    = Throw (TypeError "Cannot read properties of null")
  ∧ console (snd (runInInvalidationContext 100 (exec sampleHost nestedEvaluation) initial))
    = ["XPath outside of dependency tracking!"%string]
  ∧ dependenciesOf
      (snd (runInInvalidationContext 100 (exec sampleHost nestedEvaluation) initial)) 100
    = []
  ∧ dependenciesOf
      (snd (runInInvalidationContext 100 (exec sampleHost nestedEvaluation) initial)) 200
    = [3].
Proof. split_and!; reflexivity. Qed.

(** ** Further properties of the specification's list *)

(** A drain leaves nothing pending, whether it returns or throws. *)
Lemma drain_leaves_nothing_pending s :
  pending (snd (getInvalidatedComponents s)) = [].
Proof.
  rewrite getInvalidatedComponents_unfold.
  assert (Hloop : pending (snd (forOf (collected s) removeComponent (drained s))) = []).
  { apply (forOf_preserves (λ s0, pending s0 = [])); [| done].
    intros c s0 H0. destruct (removeComponent_graphOnly c s0) as (Hq & Ho & _).
    unfold pending in *. by rewrite Hq, Ho. }
  by destruct (forOf (collected s) removeComponent (drained s)) as [[[] | e] s'].
Qed.

(** With nothing pending a drain returns no component and changes nothing. *)
Lemma drain_nothing_pending s :
  pending s = [] → getInvalidatedComponents s = (Normal [], s).
Proof.
  intros Hp. rewrite getInvalidatedComponents_unfold.
  unfold collected. rewrite Hp. simpl.
  apply app_eq_nil in Hp as [Hq Ho].
  destruct s as [? ? q [regs rq] ? ? ?]. simpl in *. by subst.
Qed.

(** Drain idempotence: a drain that directly follows a drain returns no
    component and leaves the state as it is. *)
Theorem second_drain_returns_nothing (s : XPathInvalidator) :
  getInvalidatedComponents (snd (getInvalidatedComponents s))
  = (Normal [], snd (getInvalidatedComponents s)).
Proof. apply drain_nothing_pending, drain_leaves_nothing_pending. Qed.

(** Capture correctness: after the tracked evaluation by [c] of a callback
    that reads an attribute of the element [node] (a node that has the
    [getAttribute] method) through the current facade, [node] is a
    dependency of [c] and [c] a dependent of [node]; the call returns with
    the slot empty. *)
Theorem capture_correctness (h : Host) (c : Component) (node : Node)
    (name : string) (s : XPathInvalidator) :
  is_Some (getAttribute h node) →
  ∃ s', runInInvalidationContext c (exec h (readAttribute node name)) s
        = (Normal tt, s')
        ∧ node ∈ dependenciesOf s' c
        ∧ c ∈ dependentsOf s' node
        ∧ _currentDomFacade s' = None.
Proof.
  intros [method Hmethod]. rewrite runInInvalidationContext_unfold.
  destruct (exec h (readAttribute node name) (installFacade s)) as [r s1] eqn:Hrun.
  assert (Hs1 : r = Normal tt
                ∧ touchedBy {| touchedNodes := length (touchedSets s) |} s1 = [node]).
  { unfold exec, readAttribute, bind, currentDomFacade, readThrough, facadeRead,
      DependencyNotifyingDomFacade.getAttribute, bind, lift, callGetAttribute,
      ret, onNodeTouched, modify in Hrun.
    rewrite Hmethod in Hrun.
    simpl in Hrun. injection Hrun as <- <-. split; [done |].
    unfold touchedBy. simpl.
    rewrite list_lookup_alter, list_lookup_middle by done.
    by rewrite decide_True. }
  destruct Hs1 as [-> Htouched].
  eexists. split; [reflexivity |].
  destruct (mergeTouched_spec c {| touchedNodes := length (touchedSets s) |} s1)
    as (Hslot & _ & Hd & Hn).
  rewrite Hd, Hn, Htouched. split_and!; [| | done]; right; split; by try left.
Qed.

(** On the sample tree component [100] reads the attribute [id] of element
    [1]. *)
Lemma capture_correctness_witness :
  ∃ s', runInInvalidationContext 100 (exec sampleHost (readAttribute 1 "id")) initial
        = (Normal tt, s')
        ∧ 1 ∈ dependenciesOf s' 100
        ∧ 100 ∈ dependentsOf s' 1
        ∧ _currentDomFacade s' = None.
Proof.
  apply (capture_correctness sampleHost 100 1 "id" initial).
  simpl. by eexists.
Defined.

(** The reads of a node's own properties: the callback is notified of the
    node, once, and the value read from the tree is returned as it is. For
    the two attribute reads this is so on an element; on a node without
    [attributes], or without the [getAttribute] method, the read throws
    after the notification. *)
Theorem own_reads_touch_node_and_delegate (h : Host) (node : Node) (name : string) :
  (∀ attrs, attributes h node = Some attrs →
     DependencyNotifyingDomFacade.getAllAttributes h spy node []
     = (Normal attrs, [node]))
  ∧ (attributes h node = None →
     DependencyNotifyingDomFacade.getAllAttributes h spy node []
     = (Throw (TypeError "undefined is not iterable"), [node]))
  ∧ (∀ method, getAttribute h node = Some method →
     DependencyNotifyingDomFacade.getAttribute h spy node name []
     = (Normal (method name), [node]))
  ∧ (getAttribute h node = None →
     DependencyNotifyingDomFacade.getAttribute h spy node name []
     = (Throw (TypeError "node.getAttribute is not a function"), [node]))
  ∧ DependencyNotifyingDomFacade.getData h spy node []
    = (Normal (if decide (nodeType h node = ATTRIBUTE_NODE)
               then value h node else data h node), [node])
  ∧ DependencyNotifyingDomFacade.getChildNodes h spy node None []
    = (Normal (childNodes h node), [node])
  ∧ DependencyNotifyingDomFacade.getFirstChild h spy node None []
    = (Normal (head (childNodes h node)), [node]).
Proof.
  split_and!.
  - intros attrs Ha.
    unfold DependencyNotifyingDomFacade.getAllAttributes, bind, lift,
      arrayFromAttributes. simpl. by rewrite Ha.
  - intros Ha.
    unfold DependencyNotifyingDomFacade.getAllAttributes, bind, lift,
      arrayFromAttributes. simpl. by rewrite Ha.
  - intros method Hm.
    unfold DependencyNotifyingDomFacade.getAttribute, bind, lift,
      callGetAttribute. simpl. by rewrite Hm.
  - intros Hm.
    unfold DependencyNotifyingDomFacade.getAttribute, bind, lift,
      callGetAttribute. simpl. by rewrite Hm.
  - unfold DependencyNotifyingDomFacade.getData, bind. simpl. by case_decide.
  - unfold DependencyNotifyingDomFacade.getChildNodes, bind, ret. simpl.
    f_equal. f_equal. induction (childNodes h node) as [| x l IH]; [done |].
    rewrite filter_cons_True by done. by rewrite IH.
  - unfold DependencyNotifyingDomFacade.getFirstChild, bind, ret. simpl.
    by destruct (childNodes h node).
Qed.

(** On the sample tree: the attributes of element [1] are read and returned;
    the same read on text node [2] throws after the notification, and so
    does the read of an attribute of the document [0]. *)
Lemma own_reads_touch_node_and_delegate_witness :
  DependencyNotifyingDomFacade.getAllAttributes sampleHost spy 1 []
  = (Normal [6], [1])
  ∧ DependencyNotifyingDomFacade.getAllAttributes sampleHost spy 2 []
    = (Throw (TypeError "undefined is not iterable"), [2])
  ∧ DependencyNotifyingDomFacade.getAttribute sampleHost spy 0 "id" []
    = (Throw (TypeError "node.getAttribute is not a function"), [0]).
Proof.
  destruct (own_reads_touch_node_and_delegate sampleHost 1 "id") as (Hsome & _).
  destruct (own_reads_touch_node_and_delegate sampleHost 2 "id") as (_ & Hnone & _).
  destruct (own_reads_touch_node_and_delegate sampleHost 0 "id")
    as (_ & _ & _ & Hmethod & _).
  split_and!; [by apply Hsome | by apply Hnone | by apply Hmethod].
Defined.

(** The drain of [twoComponents] collects [200] alone and returns it. *)
Lemma drain_returns_iff_no_repetition_witness :
  (NoDup (collected twoComponents)
   ∧ fst (getInvalidatedComponents twoComponents) = Normal (collected twoComponents))
  ∨ (¬ NoDup (collected twoComponents)
     ∧ fst (getInvalidatedComponents twoComponents)
       = Throw (TypeError "undefined is not iterable")).
Proof.
  apply drain_returns_iff_no_repetition.
  apply (run_symmetric _ initial initial_symmetric).
Defined.

(** ** Further properties of the code *)

(** ** Searching a chain of candidates *)

Section Find.
Context {A : Type}.
Implicit Types (P : A → bool) (l : list A).

Lemma find_head_filter P l : find P l = head (filter P l).
Proof.
  induction l as [| x l IH]; [done |]. cbn [find].
  destruct (P x) eqn:HP.
  - by rewrite filter_cons_True by (by rewrite HP).
  - rewrite filter_cons_False by (rewrite HP; intros []). apply IH.
Qed.

(** [find] returns the first element that passes the test. *)
Lemma find_Some_nearest P l x :
  find P l = Some x
  ↔ ∃ nearer further,
      l = nearer ++ x :: further ∧ P x = true ∧ ∀ y, y ∈ nearer → P y = false.
Proof.
  induction l as [| z l IH]; simpl.
  - split; [done |]. intros (nearer & further & Hl & _). by destruct nearer.
  - destruct (P z) eqn:HP.
    + split.
      * intros [= ->]. exists [], l. split_and!; [done | done |].
        by intros y ?%elem_of_nil.
      * intros (nearer & further & Hl & Hx & Hnear).
        destruct nearer as [| w nearer]; simpl in Hl; injection Hl as -> ->; [done |].
        rewrite Hnear in HP by left. done.
    + rewrite IH. split.
      * intros (nearer & further & -> & Hx & Hnear).
        exists (z :: nearer), further. split_and!; [done | done |].
        by intros y [-> | ?]%elem_of_cons; [| apply Hnear].
      * intros (nearer & further & Hl & Hx & Hnear).
        destruct nearer as [| w nearer]; simpl in Hl; injection Hl as -> ->.
        -- congruence.
        -- exists nearer, further. split_and!; [done | done |].
           intros y Hy. apply Hnear. by right.
Qed.

Lemma find_None_all P l : find P l = None ↔ ∀ y, y ∈ l → P y = false.
Proof.
  induction l as [| z l IH]; simpl.
  - split; [by intros _ y ?%elem_of_nil | done].
  - destruct (P z) eqn:HP.
    + split; [done |]. intros Hall. rewrite Hall in HP by left. done.
    + rewrite IH. split.
      * by intros Hall y [-> | ?]%elem_of_cons; [| apply Hall].
      * intros Hall y Hy. apply Hall. by right.
Qed.
End Find.

(** ** The reads with a bucket *)

Section BucketFacts.
Variable h : Host.
Import DependencyNotifyingDomFacade.

Lemma nextSiblingLoop_find chain bucket :
  nextSiblingLoop h chain bucket = find (matches h bucket) chain.
Proof.
  induction chain as [| x chain IH]; [done |]. simpl. unfold matches at 1.
  rewrite IH. by destruct (falsy bucket), (includes (getBucketsForNode h x) bucket).
Qed.

Lemma previousSiblingLoop_find chain bucket :
  previousSiblingLoop h chain bucket
  = find (λ x, includes (getBucketsForNode h x) bucket) chain.
Proof.
  induction chain as [| x chain IH]; [done |]. simpl.
  rewrite IH. by destruct (includes (getBucketsForNode h x) bucket).
Qed.
End BucketFacts.

(** The children reads: [getChildNodes] returns, in their order, exactly
    the children of the node that pass the bucket test (all of them without
    a bucket), and [getFirstChild] returns the first of these, [null] when
    there is none; each notifies the callback of the node once. *)
Theorem children_filtered_by_bucket (h : Host) (node : Node) (bucket : option string) :
  ∃ l, DependencyNotifyingDomFacade.getChildNodes h spy node bucket []
       = (Normal l, [node])
       ∧ (∀ x, x ∈ l ↔ x ∈ childNodes h node ∧ matches h bucket x = true)
       ∧ sublist l (childNodes h node)
       ∧ DependencyNotifyingDomFacade.getFirstChild h spy node bucket []
         = (Normal (head l), [node]).
Proof.
  exists (filter (matches h bucket) (childNodes h node)). split_and!.
  - reflexivity.
  - intros x. rewrite list_elem_of_filter, Is_true_true. tauto.
  - apply sublist_filter.
  - unfold DependencyNotifyingDomFacade.getFirstChild, bind, ret, spy, modify. simpl.
    f_equal. f_equal. apply (find_head_filter (matches h bucket)).
Qed.

(** [getNextSibling] returns the nearest following sibling that passes the
    bucket test, and [null] exactly when none does; the callback is notified
    of the parent alone. *)
Theorem nextSibling_nearest_match (h : Host) (node : Node) (bucket : option string) :
  ∃ r, DependencyNotifyingDomFacade.getNextSibling h spy node bucket []
       = (Normal r, option_list (parentNode h node))
       ∧ (∀ x, r = Some x ↔
               ∃ nearer further,
                 followingSiblings h node = nearer ++ x :: further
                 ∧ matches h bucket x = true
                 ∧ ∀ y, y ∈ nearer → matches h bucket y = false)
       ∧ (r = None ↔ ∀ y, y ∈ followingSiblings h node → matches h bucket y = false).
Proof.
  eexists. split; [apply getNextSibling_spy |].
  rewrite nextSiblingLoop_find. split.
  - intros x. apply find_Some_nearest.
  - apply find_None_all.
Qed.

(** [getPreviousSibling] returns the nearest preceding sibling whose buckets
    include the given bucket, and [null] exactly when there is none; an
    absent bucket is included in no node's buckets. *)
Theorem previousSibling_nearest_in_bucket (h : Host) (node : Node)
    (bucket : option string) :
  ∃ r, DependencyNotifyingDomFacade.getPreviousSibling h spy node bucket []
       = (Normal r, option_list (parentNode h node))
       ∧ (∀ x, r = Some x ↔
               ∃ nearer further,
                 precedingSiblings h node = nearer ++ x :: further
                 ∧ includes (getBucketsForNode h x) bucket = true
                 ∧ ∀ y, y ∈ nearer → includes (getBucketsForNode h y) bucket = false)
       ∧ (r = None ↔
          ∀ y, y ∈ precedingSiblings h node →
               includes (getBucketsForNode h y) bucket = false).
Proof.
  eexists. split; [apply getPreviousSibling_spy |].
  rewrite previousSiblingLoop_find. split.
  - intros x. apply (find_Some_nearest (λ x, includes (getBucketsForNode h x) bucket)).
  - apply (find_None_all (λ x, includes (getBucketsForNode h x) bucket)).
Qed.

(** ** [getOrDefault] as a map operation *)

(** What [getOrDefault] returns is what a lookup of the key finds afterwards;
    the other keys are as before; a key that had a set keeps it and the map
    is unchanged; a second call changes nothing more and returns the same
    set. *)
Theorem getOrDefault_round_trip (map : gmap nat (list nat)) (key : nat) :
  (getOrDefault map key).2 !! key = Some (getOrDefault map key).1
  ∧ (∀ k, k ≠ key → (getOrDefault map key).2 !! k = map !! k)
  ∧ (∀ set, map !! key = Some set → getOrDefault map key = (set, map))
  ∧ (map !! key = None → (getOrDefault map key).1 = [])
  ∧ getOrDefault (getOrDefault map key).2 key = getOrDefault map key.
Proof.
  unfold getOrDefault. destruct (map !! key) as [set |] eqn:Hk; simpl.
  - rewrite Hk. split_and!; try done. by intros ? [= ->].
  - rewrite lookup_insert_eq. split_and!; try done.
    intros k Hne. by rewrite lookup_insert_ne.
Qed.

Lemma getOrDefault_round_trip_witness :
  getOrDefault {[1 := [7; 8]]} 1 = ([7; 8], {[1 := [7; 8]]})
  ∧ (getOrDefault {[1 := [7; 8]]} 2).1 = [].
Proof.
  destruct (getOrDefault_round_trip {[1 := [7; 8]]} 1) as (_ & _ & Hsome & _).
  destruct (getOrDefault_round_trip {[1 := [7; 8]]} 2) as (_ & _ & _ & Hnone & _).
  split; [by apply Hsome | by apply Hnone].
Defined.

(** ** What a read through a facade of the engine does to the engine *)

Ltac facade_unfold :=
  unfold facadeRead, bind;
  unfold DependencyNotifyingDomFacade.getAllAttributes,
    DependencyNotifyingDomFacade.getAttribute,
    DependencyNotifyingDomFacade.getChildNodes,
    DependencyNotifyingDomFacade.getData,
    DependencyNotifyingDomFacade.getFirstChild,
    DependencyNotifyingDomFacade.getLastChild,
    DependencyNotifyingDomFacade.getNextSibling,
    DependencyNotifyingDomFacade.getParentNode,
    DependencyNotifyingDomFacade.getPreviousSibling,
    callGetChildNodes, arrayFromAttributes, callGetAttribute,
    bind, lift, ret, onNodeTouched, modify.

(** The state after a read, whether it returned or threw. *)
Lemma facadeRead_state h f r s :
  snd (facadeRead h f r s)
  = match touchTarget h r with
    | Some n =>
        with_touchedSets (alter (JSSet.add n) (touchedNodes f) (touchedSets s)) s
    | None => s
    end.
Proof.
  destruct r; facade_unfold; simpl; repeat case_match; simplify_eq; done.
Qed.

Lemma facadeRead_returns h f r s :
  returns h r → ∃ v, fst (facadeRead h f r s) = Normal v.
Proof.
  destruct r; simpl; intros Hret; facade_unfold; simpl;
    try match goal with H : is_Some _ |- _ => destruct H as [l Hl]; rewrite Hl end;
    repeat case_match; simplify_eq; by eexists.
Qed.

Lemma facadeRead_throws h f r s :
  ¬ returns h r → fst (facadeRead h f r s) = Throw (readError r).
Proof.
  destruct r; simpl; try (by intros []);
    intros Hnone; facade_unfold; simpl.
  - destruct (attributes h node) eqn:Hg; [| done].
    exfalso. apply Hnone. by eexists.
  - destruct (getAttribute h node) eqn:Hg; [| done].
    exfalso. apply Hnone. by eexists.
  - destruct (getChildNodes h node) eqn:Hg; [| done].
    exfalso. apply Hnone. by eexists.
Qed.

Lemma touchedBy_alter_same f n (t : list (list Node)) s :
  touchedNodes f < length t →
  touchedBy f (with_touchedSets (alter (JSSet.add n) (touchedNodes f) t) s)
  = JSSet.add n (default [] (t !! touchedNodes f)).
Proof.
  intros Hlt. unfold touchedBy. simpl. rewrite list_lookup_alter.
  destruct (lookup_lt_is_Some_2 t _ Hlt) as [x Hx].
  rewrite decide_True by done. by rewrite Hx.
Qed.

Lemma touchedBy_alter_other f g n (t : list (list Node)) s :
  touchedNodes g ≠ touchedNodes f →
  touchedBy g (with_touchedSets (alter (JSSet.add n) (touchedNodes f) t) s)
  = default [] (t !! touchedNodes g).
Proof.
  intros Hne. unfold touchedBy. simpl. rewrite list_lookup_alter.
  by rewrite decide_False by done.
Qed.

(** A read through a facade of the engine, whether it returns or throws,
    leaves the graph, the pending records, the slot and the console as they
    are, and the touched sets of the other facades too; to the touched set of
    its own facade it adds the node the read depends on, if there is one. It
    throws in three cases, each after the node has been touched: the
    attributes of a node that has none (a node that is not an element), an
    attribute of a node without the [getAttribute] method, and [getLastChild]
    on a node without the [getChildNodes] method; the error is the
    [TypeError] of that access. Every other read returns. *)
Theorem facade_read_effect (h : Host) (f : Facade) (r : Read) (s : XPathInvalidator) :
  sameGraph s (snd (facadeRead h f r s))
  ∧ pending (snd (facadeRead h f r s)) = pending s
  ∧ _currentDomFacade (snd (facadeRead h f r s)) = _currentDomFacade s
  ∧ console (snd (facadeRead h f r s)) = console s
  ∧ (∀ g, touchedNodes g ≠ touchedNodes f →
          touchedBy g (snd (facadeRead h f r s)) = touchedBy g s)
  ∧ (touchedNodes f < length (touchedSets s) →
     touchedBy f (snd (facadeRead h f r s))
     = match touchTarget h r with
       | Some n => JSSet.add n (touchedBy f s)
       | None => touchedBy f s
       end)
  ∧ (returns h r → ∃ v, fst (facadeRead h f r s) = Normal v)
  ∧ (¬ returns h r → fst (facadeRead h f r s) = Throw (readError r)).
Proof.
  rewrite facadeRead_state. split_and!.
  - by destruct (touchTarget h r).
  - by destruct (touchTarget h r).
  - by destruct (touchTarget h r).
  - by destruct (touchTarget h r).
  - intros g Hne. destruct (touchTarget h r); [| done].
    by rewrite touchedBy_alter_other.
  - intros Hlt. destruct (touchTarget h r); [| done].
    by rewrite touchedBy_alter_same.
  - apply facadeRead_returns.
  - apply facadeRead_throws.
Qed.

(** In the middle of the evaluation of component [100] on the sample tree,
    the next sibling of text node [2] is read through the facade: its parent
    [1] joins the touched set. *)
Lemma facade_read_effect_witness :
  touchedBy {| touchedNodes := 0 |}
    (snd (facadeRead sampleHost {| touchedNodes := 0 |} (GetNextSibling 2 None) outerActive))
  = [1]
  ∧ ∃ v, fst (facadeRead sampleHost {| touchedNodes := 0 |} (GetNextSibling 2 None)
                outerActive) = Normal v.
Proof.
  destruct (facade_read_effect sampleHost {| touchedNodes := 0 |}
              (GetNextSibling 2 None) outerActive)
    as (_ & _ & _ & _ & _ & Hown & Hret & _).
  split.
  - apply Hown. simpl. lia.
  - apply Hret. exact I.
Defined.

(** ** Properties that a whole callback keeps

    A relation between the state before and the state after that holds for
    every elementary change a callback can cause holds for the callback, and
    for the tracked evaluation around it. *)

Section ScriptFrame.
Variable R : XPathInvalidator → XPathInvalidator → Prop.
Hypothesis R_refl : ∀ s, R s s.
Hypothesis R_trans : ∀ s1 s2 s3, R s1 s2 → R s2 s3 → R s1 s3.
Hypothesis R_touchedSets : ∀ t s, R s (with_touchedSets t s).
Hypothesis R_console : ∀ c s, R s (with_console c s).
Hypothesis R_slot : ∀ f s, R s (with_currentDomFacade f s).
Hypothesis R_entry : ∀ c s,
  R s (with_dependenciesByComponent (getOrDefault (_dependenciesByComponent s) c).2 s).
Hypothesis R_recorded : ∀ c n s, tracked s c → R s (recorded c n s).

Lemma frame_merge_loop c (l : list Node) :
  ∀ s, tracked s c → R s (foldl (λ s n, recorded c n s) s l).
Proof.
  induction l as [| n l IH]; intros s Htr; simpl; [done |].
  eapply R_trans; [by apply R_recorded |].
  apply IH. by apply recorded_tracked.
Qed.

Lemma frame_mergeTouched c f s : R s (mergeTouched c f s).
Proof.
  unfold mergeTouched.
  eapply R_trans; [apply (R_entry c) |].
  eapply R_trans; [apply frame_merge_loop, tracked_getOrDefault | apply R_slot].
Qed.

Lemma frame_installFacade s : R s (installFacade s).
Proof. unfold installFacade. eapply R_trans; [apply R_touchedSets | apply R_slot]. Qed.

Lemma frame_runInInvalidationContext c callback :
  (∀ s, R s (snd (callback s))) →
  ∀ s, R s (snd (runInInvalidationContext c callback s)).
Proof.
  intros Hcb s. rewrite runInInvalidationContext_unfold.
  specialize (Hcb (installFacade s)).
  destruct (callback (installFacade s)) as [[[] | e] s1]; simpl in *.
  - eapply R_trans; [apply frame_installFacade |].
    eapply R_trans; [exact Hcb | apply frame_mergeTouched].
  - eapply R_trans; [apply frame_installFacade | exact Hcb].
Qed.

Lemma frame_readThrough h f r s : R s (snd (readThrough h f r s)).
Proof.
  destruct f as [f |]; simpl; [| done].
  rewrite facadeRead_state. by destruct (touchTarget h r).
Qed.

Lemma frame_currentDomFacade s : R s (snd (currentDomFacade s)).
Proof.
  unfold currentDomFacade. destruct (_currentDomFacade s); simpl; [done |].
  apply R_console.
Qed.

Lemma frame_exec h p : ∀ s, R s (snd (exec h p s)).
Proof.
  induction p as [| e | k IH | f r k IH | c callback IHcb k IHk]; intros s; simpl.
  - done.
  - done.
  - unfold bind. pose proof (frame_currentDomFacade s) as Hr.
    destruct (currentDomFacade s) as [[f | e] s']; simpl in *; [| done].
    eapply R_trans; [exact Hr | apply IH].
  - unfold bind. pose proof (frame_readThrough h f r s) as Hr.
    destruct (readThrough h f r s) as [[v | e] s']; simpl in *; [| done].
    eapply R_trans; [exact Hr | apply IH].
  - unfold bind.
    pose proof (frame_runInInvalidationContext c _ IHcb s) as Hr.
    destruct (runInInvalidationContext c (exec h callback) s) as [[[] | e] s'];
      simpl in *; [| done].
    eapply R_trans; [exact Hr | apply IHk].
Qed.
End ScriptFrame.

(** ** The merge step, entry by entry *)

Lemma recorded_byComponent_lookup c n s c' :
  _dependenciesByComponent (recorded c n s) !! c'
  = if decide (c' = c) then JSSet.add n <$> _dependenciesByComponent s !! c
    else _dependenciesByComponent s !! c'.
Proof.
  unfold recorded, recordDependency, modify. simpl.
  destruct (getOrDefault (_dependentComponentsByNode s) n) as [set' byNode].
  simpl. unfold addTo. rewrite lookup_alter.
  repeat case_decide; by subst.
Qed.

Lemma recorded_byNode_lookup c n s n' :
  _dependentComponentsByNode (recorded c n s) !! n'
  = if decide (n' = n)
    then Some (JSSet.add c (default [] (_dependentComponentsByNode s !! n)))
    else _dependentComponentsByNode s !! n'.
Proof.
  unfold recorded, recordDependency, modify. simpl.
  pose proof (getOrDefault_lookup (_dependentComponentsByNode s) n) as Hl.
  destruct (getOrDefault (_dependentComponentsByNode s) n) as [set byNode].
  simpl in *. unfold addTo. rewrite lookup_alter.
  case_decide; subst; rewrite Hl; case_decide; done.
Qed.

Lemma recorded_sameRecords c n s : sameRecords s (recorded c n s).
Proof.
  unfold sameRecords, recorded, recordDependency, modify. simpl.
  by destruct (getOrDefault (_dependentComponentsByNode s) n).
Qed.

(** ** Tracked evaluations and the mutation records *)

Lemma sameRecords_trans s1 s2 s3 :
  sameRecords s1 s2 → sameRecords s2 s3 → sameRecords s1 s3.
Proof. unfold sameRecords. intros [? ?] [? ?]. split; congruence. Qed.

Lemma sameRecords_pending s s' : sameRecords s s' → pending s' = pending s.
Proof. intros [Hq Ho]. unfold pending. by rewrite Hq, Ho. Qed.

Lemma sameRecords_runInInvalidationContext h c p s :
  sameRecords s (snd (runInInvalidationContext c (exec h p) s)).
Proof.
  apply (frame_runInInvalidationContext sameRecords);
    [solve [by unfold sameRecords | apply sameRecords_trans
           | intros; apply recorded_sameRecords] .. |].
  intros s0. apply (frame_exec sameRecords);
    solve [by unfold sameRecords | apply sameRecords_trans
          | intros; apply recorded_sameRecords].
Qed.

(** A tracked evaluation, whatever its callback reads or starts and however
    it ends, consumes and adds no mutation record and leaves the observer as
    it is: what was pending before is pending after. *)
Theorem tracked_evaluation_keeps_records (h : Host) (c : Component) (p : Script)
    (s : XPathInvalidator) :
  pending (snd (runInInvalidationContext c (exec h p) s)) = pending s
  ∧ _queuedMutationRecords (snd (runInInvalidationContext c (exec h p) s))
    = _queuedMutationRecords s
  ∧ _mutationObserver (snd (runInInvalidationContext c (exec h p) s))
    = _mutationObserver s.
Proof.
  pose proof (sameRecords_runInInvalidationContext h c p s) as Hsame.
  split; [by apply sameRecords_pending | apply Hsame].
Qed.

(** ** Tracked evaluations only add to the graph *)

Lemma grows_refl s : grows s s.
Proof. by unfold grows. Qed.

Lemma grows_trans s1 s2 s3 : grows s1 s2 → grows s2 s3 → grows s1 s3.
Proof.
  intros (Hd1 & Hn1 & Ht1 & Hk1) (Hd2 & Hn2 & Ht2 & Hk2).
  unfold grows. split_and!; eauto.
Qed.

Lemma grows_sameGraph s s' : sameGraph s s' → grows s s'.
Proof.
  intros [Hc Hn]. unfold grows, dependenciesOf, dependentsOf, tracked.
  rewrite Hc, Hn. done.
Qed.

Lemma grows_entry c s :
  grows s (with_dependenciesByComponent
             (getOrDefault (_dependenciesByComponent s) c).2 s).
Proof.
  unfold grows. split_and!.
  - intros c' n. by rewrite dependenciesOf_getOrDefault.
  - done.
  - intros c'. unfold tracked. simpl. rewrite getOrDefault_lookup.
    case_decide; [by eexists | done].
  - done.
Qed.

Lemma grows_recorded c n s : tracked s c → grows s (recorded c n s).
Proof.
  intros Htr. unfold grows. split_and!.
  - intros c' n'. rewrite recorded_dependenciesOf by done.
    case_decide; subst; [| done]. rewrite JSSet_elem_of_add. by right.
  - intros n' c'. rewrite recorded_dependentsOf.
    case_decide; subst; [| done]. rewrite JSSet_elem_of_add. by right.
  - intros c'. apply recorded_tracked.
  - intros n'. rewrite recorded_byNode_lookup. case_decide; [by eexists | done].
Qed.

Lemma grows_exec h p s : grows s (snd (exec h p s)).
Proof.
  apply (frame_exec grows);
    solve [apply grows_refl | apply grows_trans | apply grows_entry
          | intros; by apply grows_recorded
          | intros; by apply grows_sameGraph].
Qed.

Lemma grows_runInInvalidationContext h c p s :
  grows s (snd (runInInvalidationContext c (exec h p) s)).
Proof.
  apply (frame_runInInvalidationContext grows);
    [solve [apply grows_refl | apply grows_trans | apply grows_entry
           | intros; by apply grows_recorded
           | intros; by apply grows_sameGraph] .. |].
  intros s0. apply grows_exec.
Qed.

(** A tracked evaluation whose callback is a script (reads through facades,
    calls of the getter, a throw, nested tracked evaluations of scripts)
    never removes anything from the graph, however it ends: every dependency
    edge, every entry of a component and every entry of a node that was there
    before is there after. Run again without an eviction in between, a
    component keeps the dependencies of its earlier runs. A callback that
    itself evicts or drains is not a script, and not covered. *)
Theorem tracked_evaluation_only_adds (h : Host) (c : Component) (p : Script)
    (s : XPathInvalidator) :
  (∀ c' n, n ∈ dependenciesOf s c' →
           n ∈ dependenciesOf (snd (runInInvalidationContext c (exec h p) s)) c')
  ∧ (∀ n c', c' ∈ dependentsOf s n →
             c' ∈ dependentsOf (snd (runInInvalidationContext c (exec h p) s)) n)
  ∧ (∀ c', tracked s c' →
           tracked (snd (runInInvalidationContext c (exec h p) s)) c')
  ∧ (∀ n, is_Some (_dependentComponentsByNode s !! n) →
          is_Some (_dependentComponentsByNode
                     (snd (runInInvalidationContext c (exec h p) s)) !! n)).
Proof. apply grows_runInInvalidationContext. Qed.

(** On the sample tree component [100] reads the data of [2], and then, in a
    second evaluation, the children of [3]: the dependency on [2] is still
    there. *)
Lemma tracked_evaluation_only_adds_witness :
  2 ∈ dependenciesOf
        (snd (runInInvalidationContext 100 (exec sampleHost (readChildren 3))
                (snd (runInInvalidationContext 100 (exec sampleHost (readData 2))
                        initial))))
        100
  ∧ 3 ∈ dependenciesOf
        (snd (runInInvalidationContext 100 (exec sampleHost (readChildren 3))
                (snd (runInInvalidationContext 100 (exec sampleHost (readData 2))
                        initial))))
        100.
Proof.
  split.
  - apply (proj1 (tracked_evaluation_only_adds sampleHost 100 (readChildren 3)
                    (snd (runInInvalidationContext 100 (exec sampleHost (readData 2))
                            initial)))).
    vm_compute. left.
  - vm_compute. right. left.
Defined.

(** ** One read inside a tracked evaluation *)

Lemma touchedBy_installFacade s :
  touchedBy {| touchedNodes := length (touchedSets s) |} (installFacade s) = [].
Proof. unfold touchedBy, installFacade. simpl. by rewrite list_lookup_middle. Qed.

(** The callback [readOnce r] inside a tracked evaluation: the getter hands
    out the facade of the evaluation without a warning, and the read goes
    through it. *)
Lemma exec_readOnce_installed h r s :
  exec h (readOnce r) (installFacade s)
  = match facadeRead h {| touchedNodes := length (touchedSets s) |} r (installFacade s) with
    | (Normal _, s1) => (Normal tt, s1)
    | (Throw e, s1) => (Throw e, s1)
    end.
Proof.
  unfold readOnce. simpl. unfold bind, currentDomFacade. simpl.
  by destruct (facadeRead h _ r (installFacade s)) as [[v | e] s1].
Qed.

Lemma readOnce_capture h c r s :
  returns h r →
  ∃ s', runInInvalidationContext c (exec h (readOnce r)) s = (Normal tt, s')
        ∧ _currentDomFacade s' = None
        ∧ tracked s' c
        ∧ (∀ c' n, n ∈ dependenciesOf s' c' ↔
                   n ∈ dependenciesOf s c' ∨ (c' = c ∧ touchTarget h r = Some n))
        ∧ (∀ n c', c' ∈ dependentsOf s' n ↔
                   c' ∈ dependentsOf s n ∨ (c' = c ∧ touchTarget h r = Some n)).
Proof.
  intros Hret. rewrite runInInvalidationContext_unfold, exec_readOnce_installed.
  pose proof (facadeRead_state h {| touchedNodes := length (touchedSets s) |} r
                (installFacade s)) as Hstate.
  destruct (facadeRead_returns h {| touchedNodes := length (touchedSets s) |} r
              (installFacade s) Hret) as [v Hv].
  destruct (facadeRead h _ r (installFacade s)) as [res s1]. simpl in *. subst res.
  eexists. split; [reflexivity |].
  destruct (mergeTouched_spec c {| touchedNodes := length (touchedSets s) |} s1)
    as (Hslot & Htr & Hd & Hn).
  assert (Htouched : ∀ n, n ∈ touchedBy {| touchedNodes := length (touchedSets s) |} s1
                          ↔ touchTarget h r = Some n).
  { intros n. rewrite Hstate. destruct (touchTarget h r) as [t |].
    - rewrite touchedBy_alter_same by (simpl; rewrite length_app; simpl; lia).
      simpl. rewrite list_lookup_middle by done. simpl.
      rewrite JSSet_elem_of_add, elem_of_nil. split; [intros [-> | []]; done |].
      intros [= ->]. by left.
    - rewrite touchedBy_installFacade, elem_of_nil. split; [done | congruence]. }
  assert (Hgraph : sameGraph s s1).
  { rewrite Hstate. by destruct (touchTarget h r). }
  destruct Hgraph as [Hgc Hgn].
  split_and!; [done | done | |].
  - intros c' n. rewrite Hd, Htouched. unfold dependenciesOf. by rewrite Hgc.
  - intros n c'. rewrite Hn, Htouched. unfold dependentsOf. by rewrite Hgn.
Qed.

(** Exact capture. A tracked evaluation by [c] whose callback performs one
    read that returns: the call returns with the slot empty, [c] has an
    entry, and the graph has gained the edge between [c] and the node the
    read depends on (the node itself, or its parent for a sibling or parent
    read) and no other edge. *)
Theorem exact_capture (h : Host) (c : Component) (r : Read) (s : XPathInvalidator) :
  returns h r →
  ∃ s', runInInvalidationContext c (exec h (readOnce r)) s = (Normal tt, s')
        ∧ _currentDomFacade s' = None
        ∧ tracked s' c
        ∧ (∀ c' n, n ∈ dependenciesOf s' c' ↔
                   n ∈ dependenciesOf s c' ∨ (c' = c ∧ touchTarget h r = Some n))
        ∧ (∀ n c', c' ∈ dependentsOf s' n ↔
                   c' ∈ dependentsOf s n ∨ (c' = c ∧ touchTarget h r = Some n)).
Proof. apply readOnce_capture. Qed.

(** Parent redirection on the sample tree: the next sibling of the first
    child [2] of element [1] is read; the dependency recorded is [1]. *)
Lemma exact_capture_witness :
  ∃ s', runInInvalidationContext 100
          (exec sampleHost (readOnce (GetNextSibling 2 None))) initial
        = (Normal tt, s')
        ∧ _currentDomFacade s' = None
        ∧ tracked s' 100
        ∧ (∀ c' n, n ∈ dependenciesOf s' c' ↔
                   n ∈ dependenciesOf initial c'
                   ∨ (c' = 100 ∧ touchTarget sampleHost (GetNextSibling 2 None) = Some n))
        ∧ (∀ n c', c' ∈ dependentsOf s' n ↔
                   c' ∈ dependentsOf initial n
                   ∨ (c' = 100 ∧ touchTarget sampleHost (GetNextSibling 2 None) = Some n)).
Proof. exact (exact_capture sampleHost 100 (GetNextSibling 2 None) initial I). Defined.

(** A read that throws inside a tracked evaluation: the evaluation throws
    with the error of the read ([getLastChild] on a node without the
    [getChildNodes] method, or an attribute read on a node that is not an
    element) and the graph is as before, although the node was touched. *)
Theorem throwing_read_records_nothing (h : Host) (c : Component) (r : Read)
    (s : XPathInvalidator) :
  ¬ returns h r →
  fst (runInInvalidationContext c (exec h (readOnce r)) s)
  = Throw (readError r)
  ∧ sameGraph s (snd (runInInvalidationContext c (exec h (readOnce r)) s))
  ∧ (∀ n, touchTarget h r = Some n →
          touchedBy {| touchedNodes := length (touchedSets s) |}
            (snd (runInInvalidationContext c (exec h (readOnce r)) s)) = [n]).
Proof.
  intros Hno. rewrite runInInvalidationContext_unfold, exec_readOnce_installed.
  pose proof (facadeRead_state h {| touchedNodes := length (touchedSets s) |} r
                (installFacade s)) as Hstate.
  pose proof (facadeRead_throws h {| touchedNodes := length (touchedSets s) |} r
                (installFacade s) Hno) as Hthrow.
  destruct (facadeRead h _ r (installFacade s)) as [res s1].
  cbn [fst snd] in *. subst res.
  cbn [fst snd]. split_and!; [done | |].
  - rewrite Hstate. by destruct (touchTarget h r).
  - intros n Hn. rewrite Hstate, Hn.
    rewrite touchedBy_alter_same by (simpl; rewrite length_app; simpl; lia).
    simpl. by rewrite list_lookup_middle.
Qed.

Lemma throwing_read_records_nothing_witness :
  fst (runInInvalidationContext 100 (exec sampleHost (readOnce (GetLastChild 1 None)))
         initial)
  = Throw (TypeError "node.getChildNodes is not a function")
  ∧ sameGraph initial
      (snd (runInInvalidationContext 100
              (exec sampleHost (readOnce (GetLastChild 1 None))) initial))
  ∧ (∀ n, touchTarget sampleHost (GetLastChild 1 None) = Some n →
          touchedBy {| touchedNodes := length (touchedSets initial) |}
            (snd (runInInvalidationContext 100
                    (exec sampleHost (readOnce (GetLastChild 1 None))) initial)) = [n]).
Proof.
  apply (throwing_read_records_nothing sampleHost 100 (GetLastChild 1 None) initial).
  simpl. intros [l Hl]. discriminate Hl.
Defined.

(** ** Eviction *)

Lemma evicted_dependentsOf_elem c dependencies s n c' :
  symmetric s →
  _dependenciesByComponent s !! c = Some dependencies →
  c' ∈ dependentsOf (evicted c dependencies s) n ↔ c' ∈ dependentsOf s n ∧ c' ≠ c.
Proof.
  intros Hs Hc. rewrite evicted_dependentsOf.
  assert (Hdeps : dependenciesOf s c = dependencies)
    by (unfold dependenciesOf; by rewrite Hc).
  case_decide as Hin.
  - rewrite JSSet_elem_of_delete. tauto.
  - split; [| tauto]. intros Hc'. split; [done |]. intros ->.
    apply Hin. rewrite <- Hdeps. by apply Hs.
Qed.

Lemma evicted_byNode_keys c dependencies s n :
  is_Some (_dependentComponentsByNode (evicted c dependencies s) !! n)
  ↔ is_Some (_dependentComponentsByNode s !! n).
Proof.
  unfold evicted. simpl. rewrite deleteFrom_fold_lookup.
  case_decide; [| done]. by rewrite fmap_is_Some.
Qed.

Lemma evicted_graphOnly c dependencies s : graphOnly s (evicted c dependencies s).
Proof. done. Qed.

Lemma removeComponent_effect c s :
  symmetric s →
  tracked s c →
  ∃ s', removeComponent c s = (Normal tt, s')
        ∧ _dependenciesByComponent s' !! c = None
        ∧ (∀ n, c ∉ dependentsOf s' n)
        ∧ (∀ c', c' ≠ c →
                 _dependenciesByComponent s' !! c' = _dependenciesByComponent s !! c')
        ∧ (∀ n c', c' ≠ c → (c' ∈ dependentsOf s' n ↔ c' ∈ dependentsOf s n))
        ∧ (∀ n, is_Some (_dependentComponentsByNode s' !! n)
                ↔ is_Some (_dependentComponentsByNode s !! n))
        ∧ graphOnly s s'
        ∧ symmetric s'.
Proof.
  intros Hs [dependencies Hc].
  rewrite (removeComponent_tracked c dependencies)
    by eauto using symmetric_dependents_entry.
  eexists. split; [reflexivity |]. split_and!.
  - simpl. apply lookup_delete_eq.
  - intros n Hin. by apply (evicted_dependentsOf_elem c dependencies s n c Hs Hc) in Hin as [_ ?].
  - intros c' Hne. simpl. by rewrite lookup_delete_ne.
  - intros n c' Hne. rewrite (evicted_dependentsOf_elem c dependencies s n c' Hs Hc). tauto.
  - apply evicted_byNode_keys.
  - apply evicted_graphOnly.
  - by apply evicted_symmetric.
Qed.

(** Eviction of a tracked component in a symmetric graph: the call returns,
    the component has lost its entry and is a dependent of no node, the other
    components keep their entries and their edges, the graph is still
    symmetric and nothing outside the graph has changed. The nodes keep their
    entries: a node whose last dependent is evicted stays in the index with
    an empty set. *)
Theorem eviction_effect (c : Component) (s : XPathInvalidator) :
  symmetric s →
  tracked s c →
  ∃ s', removeComponent c s = (Normal tt, s')
        ∧ _dependenciesByComponent s' !! c = None
        ∧ (∀ n, c ∉ dependentsOf s' n)
        ∧ (∀ c', c' ≠ c →
                 _dependenciesByComponent s' !! c' = _dependenciesByComponent s !! c')
        ∧ (∀ n c', c' ≠ c → (c' ∈ dependentsOf s' n ↔ c' ∈ dependentsOf s n))
        ∧ (∀ n, is_Some (_dependentComponentsByNode s' !! n)
                ↔ is_Some (_dependentComponentsByNode s !! n))
        ∧ graphOnly s s'
        ∧ symmetric s'.
Proof. apply removeComponent_effect. Qed.

(** The state before the witnesses' evictions: [twoComponents], a history
    from the initial state, is symmetric. *)
Lemma twoComponents_symmetric : symmetric twoComponents.
Proof. apply run_symmetric, initial_symmetric. Qed.

Lemma eviction_effect_witness :
  ∃ s', removeComponent 200 twoComponents = (Normal tt, s')
        ∧ _dependenciesByComponent s' !! 200 = None
        ∧ (∀ n, 200 ∉ dependentsOf s' n)
        ∧ (∀ c', c' ≠ 200 →
                 _dependenciesByComponent s' !! c'
                 = _dependenciesByComponent twoComponents !! c')
        ∧ (∀ n c', c' ≠ 200 →
                   (c' ∈ dependentsOf s' n ↔ c' ∈ dependentsOf twoComponents n))
        ∧ (∀ n, is_Some (_dependentComponentsByNode s' !! n)
                ↔ is_Some (_dependentComponentsByNode twoComponents !! n))
        ∧ graphOnly twoComponents s'
        ∧ symmetric s'.
Proof.
  apply (eviction_effect 200 twoComponents twoComponents_symmetric).
  by eexists.
Defined.

Lemma removeComponent_unfold c s :
  removeComponent c s
  = match _dependenciesByComponent s !! c with
    | Some dependencies =>
        match forOf dependencies (deleteDependent c) s with
        | (Normal _, s') =>
            (Normal tt,
             with_dependenciesByComponent (delete c (_dependenciesByComponent s')) s')
        | (Throw e, s') => (Throw e, s')
        end
    | None => (Throw (TypeError "undefined is not iterable"), s)
    end.
Proof.
  unfold removeComponent, bind at 1.
  destruct (_dependenciesByComponent s !! c) as [dependencies |]; [| done].
  unfold bind. fold (deleteDependent c).
  by destruct (forOf dependencies (deleteDependent c) s) as [[[] | e] s'].
Qed.

Lemma deleteDependent_byComponent c n s :
  _dependenciesByComponent (snd (deleteDependent c n s)) = _dependenciesByComponent s.
Proof. unfold deleteDependent. by destruct (_dependentComponentsByNode s !! n). Qed.

Lemma removeComponent_normal_untracked c s :
  fst (removeComponent c s) = Normal tt →
  _dependenciesByComponent (snd (removeComponent c s)) !! c = None.
Proof.
  rewrite removeComponent_unfold.
  destruct (_dependenciesByComponent s !! c) as [dependencies |]; [| done].
  destruct (forOf dependencies (deleteDependent c) s) as [[[] | e] s']; [| done].
  intros _. simpl. apply lookup_delete_eq.
Qed.

(** Eviction is not idempotent: after a [removeComponent] that returned, a
    second [removeComponent] of the same component throws and changes
    nothing. *)
Theorem second_eviction_throws (c : Component) (s : XPathInvalidator) :
  fst (removeComponent c s) = Normal tt →
  removeComponent c (snd (removeComponent c s))
  = (Throw (TypeError "undefined is not iterable"), snd (removeComponent c s)).
Proof.
  intros Hok. by apply removeComponent_untracked, removeComponent_normal_untracked.
Qed.

Lemma second_eviction_throws_witness :
  removeComponent 200 (snd (removeComponent 200 twoComponents))
  = (Throw (TypeError "undefined is not iterable"),
     snd (removeComponent 200 twoComponents)).
Proof. exact (second_eviction_throws 200 twoComponents eq_refl). Defined.

(** The lifecycle tracked, evicted, tracked again: after the eviction of
    [c], a tracked evaluation of [c] with one read that returns leaves [c]
    with exactly the dependency of that read; nothing of what [c] depended on
    before the eviction comes back. *)
Theorem retracked_after_eviction (h : Host) (c : Component) (r : Read)
    (s : XPathInvalidator) :
  symmetric s →
  tracked s c →
  returns h r →
  ∀ n, n ∈ dependenciesOf
             (snd (runInInvalidationContext c (exec h (readOnce r))
                     (snd (removeComponent c s)))) c
       ↔ touchTarget h r = Some n.
Proof.
  intros Hs Htr Hret n.
  destruct (removeComponent_effect c s Hs Htr) as (s1 & Hrm & Hnone & _).
  rewrite Hrm. cbn [snd].
  destruct (readOnce_capture h c r s1 Hret) as (s2 & Hrun & _ & _ & Hd & _).
  rewrite Hrun. cbn [snd]. rewrite Hd. unfold dependenciesOf at 1. rewrite Hnone. simpl.
  rewrite elem_of_nil. tauto.
Qed.

(** On [twoComponents], where [200] depended on [5]: evicted and run again
    with a read of the parent of [5], it depends on [3] and no longer on
    [5]. *)
Lemma retracked_after_eviction_witness :
  (3 ∈ dependenciesOf
         (snd (runInInvalidationContext 200
                 (exec sampleHost (readOnce (GetParentNode 5)))
                 (snd (removeComponent 200 twoComponents)))) 200
   ↔ touchTarget sampleHost (GetParentNode 5) = Some 3)
  ∧ (5 ∈ dependenciesOf
           (snd (runInInvalidationContext 200
                   (exec sampleHost (readOnce (GetParentNode 5)))
                   (snd (removeComponent 200 twoComponents)))) 200
     ↔ touchTarget sampleHost (GetParentNode 5) = Some 5).
Proof.
  split;
    apply (retracked_after_eviction sampleHost 200 (GetParentNode 5) twoComponents
             twoComponents_symmetric);
    solve [by eexists | exact I].
Defined.

(** ** Draining *)

(** Whether the observer's records were delivered to the callback before the
    drain or are taken from the observer by the drain makes no difference:
    the drain after a delivery returns what the drain without it returns,
    and leaves the same state. *)
Theorem delivery_does_not_matter (s : XPathInvalidator) :
  pending (deliver s) = pending s
  ∧ getInvalidatedComponents (deliver s) = getInvalidatedComponents s.
Proof.
  assert (Hp : pending (deliver s) = pending s).
  { unfold pending, deliver. simpl. by rewrite app_nil_r. }
  split; [done |].
  rewrite !getInvalidatedComponents_unfold.
  assert (Hc : collected (deliver s) = collected s).
  { unfold collected. by rewrite Hp. }
  by rewrite Hc.
Qed.

(** The state after the eviction loop of a drain that returned. *)
Lemma eviction_loop_state (l : list Component) :
  ∀ s, symmetric s →
    fst (forOf l removeComponent s) = Normal tt →
    symmetric (snd (forOf l removeComponent s))
    ∧ (∀ c, _dependenciesByComponent (snd (forOf l removeComponent s)) !! c
            = if decide (c ∈ l) then None else _dependenciesByComponent s !! c)
    ∧ (∀ n c, c ∈ dependentsOf (snd (forOf l removeComponent s)) n
              ↔ c ∈ dependentsOf s n ∧ c ∉ l)
    ∧ graphOnly s (snd (forOf l removeComponent s)).
Proof.
  induction l as [| c l IH]; intros s Hs Hok.
  - simpl. split_and!; try done.
    intros n c. rewrite elem_of_nil. tauto.
  - simpl in *. unfold bind in *.
    destruct (_dependenciesByComponent s !! c) as [dependencies |] eqn:Hc.
    2: { rewrite removeComponent_untracked in Hok by done. done. }
    rewrite (removeComponent_tracked c dependencies) in *
      by eauto using symmetric_dependents_entry.
    destruct (IH (evicted c dependencies s) (evicted_symmetric _ _ _ Hs Hc) Hok)
      as (Hsym & Hlook & Hdep & Hframe).
    split_and!.
    + done.
    + intros c'. rewrite Hlook. simpl. rewrite lookup_delete.
      destruct (decide (c' ∈ c :: l)) as [Hcl | Hcl].
      * apply elem_of_cons in Hcl as [-> | Hl].
        -- destruct (decide (c ∈ l)); [done |]. by rewrite decide_True.
        -- by rewrite (decide_True (P := c' ∈ l)).
      * apply not_elem_of_cons in Hcl as [Hne Hl].
        rewrite (decide_False (P := c' ∈ l)) by done.
        by rewrite (decide_False (P := c = c')) by congruence.
    + intros n c'. rewrite Hdep, (evicted_dependentsOf_elem c dependencies s n c' Hs Hc).
      rewrite not_elem_of_cons. tauto.
    + destruct Hframe as (? & ? & ? & ? & ?). unfold graphOnly. simpl in *. done.
Qed.

(** A drain that returns, in a symmetric graph, has evicted exactly the
    components it returns: each of them has lost its entry and is a dependent
    of no node, every other component keeps its entry and its edges, and
    nothing is pending. *)
Theorem drain_evicts_what_it_returns (s s' : XPathInvalidator) (l : list Component) :
  symmetric s →
  getInvalidatedComponents s = (Normal l, s') →
  l = collected s
  ∧ (∀ c, c ∈ l → _dependenciesByComponent s' !! c = None)
  ∧ (∀ c, c ∉ l → _dependenciesByComponent s' !! c = _dependenciesByComponent s !! c)
  ∧ (∀ n c, c ∈ dependentsOf s' n ↔ c ∈ dependentsOf s n ∧ c ∉ l)
  ∧ pending s' = []
  ∧ symmetric s'.
Proof.
  intros Hs Hrun. rewrite getInvalidatedComponents_unfold in Hrun.
  pose proof (eviction_loop_state (collected s) (drained s)
                (symmetric_sameGraph _ _ (sameGraph_drained s) Hs)) as Hloop.
  destruct (forOf (collected s) removeComponent (drained s)) as [[[] | e] s1];
    [| done].
  injection Hrun as <- <-.
  destruct (Hloop eq_refl) as (Hsym & Hlook & Hdep & Hframe). simpl in *.
  split_and!; try done.
  - intros c Hin. by rewrite Hlook, decide_True.
  - intros c Hnin. by rewrite Hlook, decide_False.
  - destruct Hframe as (Hq & Ho & _). unfold pending. by rewrite Hq, Ho.
Qed.

Lemma drain_evicts_what_it_returns_witness :
  [200] = collected twoComponents
  ∧ (∀ c, c ∈ [200] →
          _dependenciesByComponent (snd (getInvalidatedComponents twoComponents)) !! c
          = None)
  ∧ (∀ c, c ∉ [200] →
          _dependenciesByComponent (snd (getInvalidatedComponents twoComponents)) !! c
          = _dependenciesByComponent twoComponents !! c)
  ∧ (∀ n c, c ∈ dependentsOf (snd (getInvalidatedComponents twoComponents)) n
            ↔ c ∈ dependentsOf twoComponents n ∧ c ∉ [200])
  ∧ pending (snd (getInvalidatedComponents twoComponents)) = []
  ∧ symmetric (snd (getInvalidatedComponents twoComponents)).
Proof.
  exact (drain_evicts_what_it_returns twoComponents _ [200]
           twoComponents_symmetric eq_refl).
Defined.

(** Mutations of nodes that have no dependents invalidate nothing: the drain
    returns no component, empties the pending records and leaves the graph
    as it is. *)
Theorem untouched_nodes_invalidate_nothing (s : XPathInvalidator) :
  (∀ record, record ∈ pending s →
             dependentsOf s (MutationObserver.target record) = []) →
  getInvalidatedComponents s = (Normal [], drained s)
  ∧ sameGraph s (drained s)
  ∧ pending (drained s) = [].
Proof.
  intros Hnone. rewrite getInvalidatedComponents_unfold.
  assert (Hc : collected s = []).
  { unfold collected. induction (pending s) as [| record l IH]; [done |].
    simpl. rewrite IH by (intros r Hr; apply Hnone; by right).
    specialize (Hnone record (list_elem_of_here _ _)). unfold dependentsOf in Hnone.
    destruct (_dependentComponentsByNode s !! MutationObserver.target record);
      simpl in *; by subst. }
  by rewrite Hc.
Qed.

Lemma untouched_nodes_invalidate_nothing_witness :
  getInvalidatedComponents unrelatedMutation = (Normal [], drained unrelatedMutation)
  ∧ sameGraph unrelatedMutation (drained unrelatedMutation)
  ∧ pending (drained unrelatedMutation) = [].
Proof.
  apply untouched_nodes_invalidate_nothing.
  intros record Hin.
  assert (Hp : pending unrelatedMutation
               = [{| MutationObserver.type := MutationObserver.Attributes;
                     MutationObserver.target := 3 |}]) by reflexivity.
  rewrite Hp in Hin. apply list_elem_of_singleton in Hin. subst record.
  reflexivity.
Defined.

(** ** The sets of the graph have no duplicates *)

Lemma setsNoDup_sameGraph s s' : sameGraph s s' → setsNoDup s → setsNoDup s'.
Proof. intros [Hc Hn] Hs. unfold setsNoDup. by rewrite Hc, Hn. Qed.

Lemma setsNoDup_entry c s :
  setsNoDup s →
  setsNoDup (with_dependenciesByComponent
               (getOrDefault (_dependenciesByComponent s) c).2 s).
Proof.
  intros [Hc Hn]. split; [| done]. intros c' l. simpl. rewrite getOrDefault_lookup.
  case_decide; [| apply Hc]. subst. intros [= <-].
  destruct (_dependenciesByComponent s !! c) eqn:Hl; simpl; [by eapply Hc | constructor].
Qed.

Lemma setsNoDup_recorded c n s : setsNoDup s → setsNoDup (recorded c n s).
Proof.
  intros [Hc Hn]. split.
  - intros c' l. rewrite recorded_byComponent_lookup. case_decide; [| apply Hc].
    destruct (_dependenciesByComponent s !! c) eqn:Hl; simpl; [| done].
    intros [= <-]. apply JSSet_NoDup_add. by eapply Hc.
  - intros n' l. rewrite recorded_byNode_lookup. case_decide; [| apply Hn].
    intros [= <-]. apply JSSet_NoDup_add.
    destruct (_dependentComponentsByNode s !! n) eqn:Hl; simpl;
      [by eapply Hn | constructor].
Qed.

Lemma setsNoDup_exec h p s : setsNoDup s → setsNoDup (snd (exec h p s)).
Proof.
  apply (frame_exec (λ s s', setsNoDup s → setsNoDup s'));
    solve [ done | intros; eauto
          | intros; by apply setsNoDup_entry
          | intros; by apply setsNoDup_recorded ].
Qed.

Lemma setsNoDup_runInInvalidationContext h c p s :
  setsNoDup s → setsNoDup (snd (runInInvalidationContext c (exec h p) s)).
Proof.
  apply (frame_runInInvalidationContext (λ s s', setsNoDup s → setsNoDup s'));
    [ solve [ done | intros; eauto
            | intros; by apply setsNoDup_entry
            | intros; by apply setsNoDup_recorded ] .. |].
  intros s0. apply setsNoDup_exec.
Qed.

Lemma setsNoDup_deleteDependent c n s :
  setsNoDup s → setsNoDup (snd (deleteDependent c n s)).
Proof.
  intros [Hc Hn]. unfold deleteDependent.
  destruct (_dependentComponentsByNode s !! n) eqn:Hl; [| done].
  split; [done |]. intros n' l'. simpl. unfold deleteFrom. rewrite lookup_alter.
  case_decide; [| apply Hn]. subst. rewrite Hl. simpl. intros [= <-].
  apply JSSet_NoDup_delete. by eapply Hn.
Qed.

Lemma setsNoDup_removeComponent c s :
  setsNoDup s → setsNoDup (snd (removeComponent c s)).
Proof.
  intros Hs. rewrite removeComponent_unfold.
  destruct (_dependenciesByComponent s !! c) as [dependencies |]; [| done].
  pose proof (forOf_preserves setsNoDup (deleteDependent c) dependencies
                (setsNoDup_deleteDependent c) s Hs) as Hloop.
  destruct (forOf dependencies (deleteDependent c) s) as [[[] | e] s']; [| done].
  destruct Hloop as [Hc Hn]. split; [| done].
  intros c' l. simpl. rewrite lookup_delete. case_decide; [done | apply Hc].
Qed.

Lemma setsNoDup_getInvalidatedComponents s :
  setsNoDup s → setsNoDup (snd (getInvalidatedComponents s)).
Proof.
  intros Hs. rewrite getInvalidatedComponents_unfold.
  pose proof (forOf_preserves setsNoDup removeComponent (collected s)
                setsNoDup_removeComponent (drained s)
                (setsNoDup_sameGraph _ _ (sameGraph_drained s) Hs)) as Hloop.
  by destruct (forOf (collected s) removeComponent (drained s)) as [[[] | e] s'].
Qed.

Lemma step_setsNoDup h op s : setsNoDup s → setsNoDup (step h op s).
Proof.
  intros Hs. destruct op; simpl.
  - eapply setsNoDup_sameGraph; [apply sameGraph_observeInstance | done].
  - by apply setsNoDup_runInInvalidationContext.
  - by apply setsNoDup_getInvalidatedComponents.
  - by apply setsNoDup_removeComponent.
  - eapply setsNoDup_sameGraph; [apply sameGraph_currentDomFacade | done].
  - done.
  - unfold deliver. by destruct (MutationObserver.takeRecords _).
Qed.

Lemma run_setsNoDup history : ∀ s, setsNoDup s → setsNoDup (run history s).
Proof.
  induction history as [| [h op] history IH]; intros s Hs; [done |].
  apply IH. by apply step_setsNoDup.
Qed.

Lemma initial_setsNoDup : setsNoDup initial.
Proof. split; intros k l; simpl; by rewrite lookup_empty. Qed.

(** The drain of a symmetric, duplicate-free graph with one pending record. *)
Lemma single_record_drain s (record : MutationRecord) :
  symmetric s →
  setsNoDup s →
  pending s = [record] →
  ∃ s', getInvalidatedComponents s
        = (Normal (dependentsOf s (MutationObserver.target record)), s')
        ∧ NoDup (dependentsOf s (MutationObserver.target record))
        ∧ (∀ c, c ∈ dependentsOf s (MutationObserver.target record) →
                _dependenciesByComponent s' !! c = None)
        ∧ dependentsOf s' (MutationObserver.target record) = [].
Proof.
  intros Hs [_ Hnd] Hp.
  assert (Hc : collected s = dependentsOf s (MutationObserver.target record)).
  { unfold collected, dependentsOf. rewrite Hp. simpl. rewrite app_nil_r.
    by destruct (_dependentComponentsByNode s !! MutationObserver.target record). }
  assert (Hnodup : NoDup (dependentsOf s (MutationObserver.target record))).
  { unfold dependentsOf.
    destruct (_dependentComponentsByNode s !! MutationObserver.target record) eqn:Hl;
      simpl; [by eapply Hnd | constructor]. }
  pose proof (symmetric_sameGraph _ _ (sameGraph_drained s) Hs) as Hsd.
  destruct (eviction_loop_result (collected s) (drained s) Hsd) as [Hiff _].
  assert (Hok : fst (forOf (collected s) removeComponent (drained s)) = Normal tt).
  { apply Hiff. split; [by rewrite Hc |].
    intros c Hin. by apply (collected_tracked s c Hs Hin). }
  destruct (eviction_loop_state (collected s) (drained s) Hsd Hok)
    as (_ & Hlook & Hdep & _).
  rewrite getInvalidatedComponents_unfold.
  destruct (forOf (collected s) removeComponent (drained s)) as [[[] | e] s1];
    [| done].
  simpl in *. rewrite Hc. eexists. split; [reflexivity |].
  split_and!; [done | |].
  - intros c Hin. rewrite Hlook, decide_True; [done | by rewrite Hc].
  - destruct (dependentsOf s1 (MutationObserver.target record)) as [| c l] eqn:Hl;
      [done |].
    assert (Hin : c ∈ dependentsOf s1 (MutationObserver.target record))
      by (rewrite Hl; left).
    apply Hdep in Hin as [Hin Hnin]. exfalso. apply Hnin. by rewrite Hc.
Qed.

(** Fan-out. After any history from the initial state, when exactly one
    mutation record is pending, the drain returns: its result is the set of
    dependents of the record's target, each once, and each of them has lost
    its entry. *)
Theorem single_record_fan_out (history : list (Host * HostOp))
    (record : MutationRecord) :
  pending (run history initial) = [record] →
  ∃ s', getInvalidatedComponents (run history initial)
        = (Normal (dependentsOf (run history initial)
                     (MutationObserver.target record)), s')
        ∧ NoDup (dependentsOf (run history initial) (MutationObserver.target record))
        ∧ (∀ c, c ∈ dependentsOf (run history initial) (MutationObserver.target record) →
                _dependenciesByComponent s' !! c = None)
        ∧ dependentsOf s' (MutationObserver.target record) = [].
Proof.
  apply single_record_drain.
  - apply run_symmetric, initial_symmetric.
  - apply run_setsNoDup, initial_setsNoDup.
Qed.

(** Components [100] and [200] both depend on element [1], which was mutated
    once: the drain returns both. *)
Lemma single_record_fan_out_witness :
  ∃ s', getInvalidatedComponents (run sharedDependencyHistory initial)
        = (Normal (dependentsOf (run sharedDependencyHistory initial) 1), s')
        ∧ NoDup (dependentsOf (run sharedDependencyHistory initial) 1)
        ∧ (∀ c, c ∈ dependentsOf (run sharedDependencyHistory initial) 1 →
                _dependenciesByComponent s' !! c = None)
        ∧ dependentsOf s' 1 = [].
Proof.
  exact (single_record_fan_out sharedDependencyHistory
           {| MutationObserver.type := MutationObserver.Attributes;
              MutationObserver.target := 1 |} eq_refl).
Defined.

(** ** Observing an instance *)

Section RegisterFacts.
Implicit Types (i j : MutationObserver.Init) (regs : list (Node * MutationObserver.Init)).

Lemma register_elem a i regs : (a, i) ∈ MutationObserver.register a i regs.
Proof.
  induction regs as [| [n j] regs IH]; simpl; [by left |].
  case_decide; subst; [by left | by right].
Qed.

Lemma register_other a i regs root j :
  root ≠ a →
  (root, j) ∈ MutationObserver.register a i regs ↔ (root, j) ∈ regs.
Proof.
  intros Hne. induction regs as [| [n k] regs IH]; simpl.
  - rewrite list_elem_of_singleton, elem_of_nil. split; [congruence | done].
  - case_decide; subst; rewrite !elem_of_cons; [| by rewrite IH].
    split; (intros [? | ?]; [simplify_eq | by right]).
Qed.

Lemma register_idemp a i regs :
  MutationObserver.register a i (MutationObserver.register a i regs)
  = MutationObserver.register a i regs.
Proof.
  induction regs as [| [n j] regs IH]; simpl.
  - by rewrite decide_True.
  - case_decide; subst; simpl.
    + by rewrite decide_True.
    + rewrite decide_False by done. by rewrite IH.
Qed.

Lemma register_same_init a b i regs :
  (b, i) ∈ regs → (b, i) ∈ MutationObserver.register a i regs.
Proof.
  induction regs as [| [n j] regs IH]; simpl; [by intros ?%elem_of_nil |].
  intros [[= <- <-] | Hin]%elem_of_cons; case_decide; subst;
    solve [by left | by right | right; by apply IH].
Qed.
End RegisterFacts.

(** What [observeInstance] hands to the observer, when there is an anchor. *)
Lemma observeInstance_anchor h root a s :
  anchorOf h root = Some a →
  observeInstance h (ANode root) s
  = (Normal tt,
     with_mutationObserver
       {| MutationObserver.registrations :=
            MutationObserver.register a (MutationObserver.toInit observeOptions)
              (MutationObserver.registrations (_mutationObserver s));
          MutationObserver.recordQueue :=
            MutationObserver.recordQueue (_mutationObserver s) |} s).
Proof.
  unfold anchorOf, observeInstance. intros ->. reflexivity.
Qed.

(** The cases of [observeInstance]: an object that is no node is ignored; a
    document without a document element makes the call throw, with nothing
    changed; otherwise the anchor (the document element of a document, the
    node itself else) is registered with [childList], [attributes] and
    [subtree], the registrations of the other nodes stay, and neither the
    graph nor the pending records change. *)
Theorem observeInstance_cases (h : Host) (s : XPathInvalidator) :
  observeInstance h NotANode s = (Normal tt, s)
  ∧ (∀ root, anchorOf h root = None →
       nodeType h root = DOCUMENT_NODE
       ∧ ∃ e, observeInstance h (ANode root) s = (Throw e, s))
  ∧ (∀ root a, anchorOf h root = Some a →
       ∃ s', observeInstance h (ANode root) s = (Normal tt, s')
             ∧ (a, {| MutationObserver.childList := true;
                      MutationObserver.attributes := true;
                      MutationObserver.characterData := false;
                      MutationObserver.subtree := true |})
               ∈ MutationObserver.registrations (_mutationObserver s')
             ∧ (∀ n i, n ≠ a →
                  ((n, i) ∈ MutationObserver.registrations (_mutationObserver s')
                   ↔ (n, i) ∈ MutationObserver.registrations (_mutationObserver s)))
             ∧ pending s' = pending s
             ∧ sameGraph s s').
Proof.
  split_and!.
  - reflexivity.
  - intros root Hnone. unfold anchorOf, observeInstance in *.
    case_decide; [| done]. rewrite Hnone. split; [done | by eexists].
  - intros root a Ha. rewrite (observeInstance_anchor h root a s Ha).
    eexists. split; [reflexivity |]. simpl. split_and!; try done.
    + apply register_elem.
    + intros n i Hne. by apply register_other.
Qed.

(** On the sample tree the document [0] is anchored at its element [1]. *)
Lemma observeInstance_cases_witness :
  ∃ s', observeInstance sampleHost (ANode 0) initial = (Normal tt, s')
        ∧ (1, {| MutationObserver.childList := true;
                 MutationObserver.attributes := true;
                 MutationObserver.characterData := false;
                 MutationObserver.subtree := true |})
          ∈ MutationObserver.registrations (_mutationObserver s')
        ∧ (∀ n i, n ≠ 1 →
             ((n, i) ∈ MutationObserver.registrations (_mutationObserver s')
              ↔ (n, i) ∈ MutationObserver.registrations (_mutationObserver initial)))
        ∧ pending s' = pending initial
        ∧ sameGraph initial s'.
Proof.
  exact (proj2 (proj2 (observeInstance_cases sampleHost initial)) 0 1 eq_refl).
Defined.

(** Observing the same instance a second time changes nothing: the state
    after the second call is the state after the first, and the call ends as
    the first did. *)
Theorem observeInstance_idempotent (h : Host) (root : InstanceRoot)
    (s : XPathInvalidator) :
  observeInstance h root (snd (observeInstance h root s)) = observeInstance h root s.
Proof.
  destruct root as [n |]; [| done].
  destruct (anchorOf h n) as [a |] eqn:Ha.
  - rewrite !(observeInstance_anchor h n a) by done. simpl.
    by rewrite register_idemp.
  - unfold anchorOf, observeInstance in *. case_decide; [| done]. by rewrite Ha.
Qed.

(** ** Which mutations are recorded *)

(** The engine's observer is registered on [a] with the options of
    [observeInstance]. *)
Lemma observes_recorded h a ty node s :
  (a, MutationObserver.toInit observeOptions)
    ∈ MutationObserver.registrations (_mutationObserver s) →
  ty ≠ MutationObserver.CharacterData →
  node = a ∨ a ∈ ancestors h node →
  pending (mutate h ty node s)
  = pending s ++ [{| MutationObserver.type := ty; MutationObserver.target := node |}].
Proof.
  intros Hreg Hty Hsub. unfold mutate, MutationObserver.queueRecord.
  assert (Hint : MutationObserver.interested h ty node (_mutationObserver s) = true).
  { unfold MutationObserver.interested. apply existsb_exists.
    exists (a, MutationObserver.toInit observeOptions).
    split; [by apply list_elem_of_In |].
    rewrite observeOptions_init. simpl.
    assert (Hen : MutationObserver.enabled ty
                    {| MutationObserver.childList := true;
                       MutationObserver.attributes := true;
                       MutationObserver.characterData := false;
                       MutationObserver.subtree := true |} = true)
      by (by destruct ty).
    rewrite Hen, andb_true_r.
    destruct Hsub as [-> | Hanc].
    - by rewrite bool_decide_eq_true_2.
    - rewrite (bool_decide_eq_true_2 (a ∈ ancestors h node)) by done.
      by rewrite orb_true_r. }
  rewrite Hint. unfold pending. simpl. by rewrite app_assoc.
Qed.

Lemma step_keeps_registration h op a s :
  (a, MutationObserver.toInit observeOptions)
    ∈ MutationObserver.registrations (_mutationObserver s) →
  (a, MutationObserver.toInit observeOptions)
    ∈ MutationObserver.registrations (_mutationObserver (step h op s)).
Proof.
  intros Hreg.
  assert (Hsame : ∀ s', sameRegistrations s s' →
            (a, MutationObserver.toInit observeOptions)
              ∈ MutationObserver.registrations (_mutationObserver s')).
  { intros s' Hs'. by rewrite Hs'. }
  destruct op; cbn [step].
  - destruct instanceRoot as [n |]; [| done].
    destruct (anchorOf h n) as [b |] eqn:Hb.
    + rewrite (observeInstance_anchor h n b) by done. simpl.
      by apply register_same_init.
    + unfold anchorOf, observeInstance in *. case_decide; [| done]. by rewrite Hb.
  - apply Hsame, sameRegistrations_runInInvalidationContext, sameRegistrations_exec.
  - apply Hsame, sameRegistrations_getInvalidatedComponents.
  - apply Hsame, sameRegistrations_removeComponent.
  - apply Hsame. unfold currentDomFacade. by destruct (_currentDomFacade s).
  - apply Hsame. unfold mutate, MutationObserver.queueRecord, sameRegistrations.
    simpl. by case_match.
  - by apply Hsame.
Qed.

Lemma run_keeps_registration history a :
  ∀ s, (a, MutationObserver.toInit observeOptions)
         ∈ MutationObserver.registrations (_mutationObserver s) →
       (a, MutationObserver.toInit observeOptions)
         ∈ MutationObserver.registrations (_mutationObserver (run history s)).
Proof.
  induction history as [| [h op] history IH]; intros s Hs; [done |].
  apply IH. by apply step_keeps_registration.
Qed.

(** Once an instance is observed, and whatever happens afterwards, every
    child-list or attribute mutation of its anchor or of a node below the
    anchor (in the tree as it is at the time of the mutation) is recorded: it
    becomes the last of the pending records. *)
Theorem observed_subtree_mutation_recorded (h0 h : Host) (root a node : Node)
    (ty : MutationObserver.MutationType) (history : list (Host * HostOp))
    (s : XPathInvalidator) :
  anchorOf h0 root = Some a →
  ty ≠ MutationObserver.CharacterData →
  node = a ∨ a ∈ ancestors h node →
  pending (mutate h ty node (run history (snd (observeInstance h0 (ANode root) s))))
  = pending (run history (snd (observeInstance h0 (ANode root) s)))
    ++ [{| MutationObserver.type := ty; MutationObserver.target := node |}].
Proof.
  intros Ha Hty Hsub. apply (observes_recorded h a); [| done | done].
  apply run_keeps_registration.
  rewrite (observeInstance_anchor h0 root a s Ha). simpl. apply register_elem.
Qed.

(** The document is observed, component [100] reads node [5]; then the child
    list of [5], two levels below the anchor [1], changes. *)
Lemma observed_subtree_mutation_recorded_witness :
  pending (mutate sampleHost MutationObserver.ChildList 5
             (run [(sampleHost, RunInContext 100 (readChildren 5))]
                (snd (observeInstance sampleHost (ANode 0) initial))))
  = pending (run [(sampleHost, RunInContext 100 (readChildren 5))]
               (snd (observeInstance sampleHost (ANode 0) initial)))
    ++ [{| MutationObserver.type := MutationObserver.ChildList;
           MutationObserver.target := 5 |}].
Proof.
  apply (observed_subtree_mutation_recorded sampleHost sampleHost 0 1 5).
  - reflexivity.
  - discriminate.
  - right. simpl. right. left.
Defined.



(** ** Nested evaluations and captured facades *)

Lemma recorded_touchedSets c n s : touchedSets (recorded c n s) = touchedSets s.
Proof.
  unfold recorded, recordDependency, modify. simpl.
  by destruct (getOrDefault (_dependentComponentsByNode s) n).
Qed.

Lemma mergeTouched_touchedSets c f s : touchedSets (mergeTouched c f s) = touchedSets s.
Proof.
  unfold mergeTouched. simpl.
  assert (Hfold : ∀ l s0, touchedSets (foldl (λ s n, recorded c n s) s0 l)
                          = touchedSets s0).
  { induction l as [| n l IH]; intros s0; [done |]. simpl.
    by rewrite IH, recorded_touchedSets. }
  by rewrite Hfold.
Qed.

(** The touched sets after a tracked evaluation with one read that returns:
    the sets there were, and after them the set of this evaluation. *)
Lemma readOnce_touchedSets h c r s :
  returns h r →
  touchedSets (snd (runInInvalidationContext c (exec h (readOnce r)) s))
  = touchedSets s ++ [option_list (touchTarget h r)].
Proof.
  intros Hret. rewrite runInInvalidationContext_unfold, exec_readOnce_installed.
  pose proof (facadeRead_state h {| touchedNodes := length (touchedSets s) |} r
                (installFacade s)) as Hstate.
  destruct (facadeRead_returns h {| touchedNodes := length (touchedSets s) |} r
              (installFacade s) Hret) as [v Hv].
  destruct (facadeRead h _ r (installFacade s)) as [res s1].
  cbn [fst snd] in *. subst res. cbn [snd].
  rewrite mergeTouched_touchedSets, Hstate.
  destruct (touchTarget h r) as [t |]; simpl; [| done].
  rewrite alter_app_r_alt by done. by rewrite Nat.sub_diag.
Qed.

(** Touches belong to the facade they went through, not to the slot. An
    evaluation of [outer] takes its facade, runs a nested evaluation of
    [inner] (which overwrites and then empties the slot) and afterwards reads
    through the facade it took. When both reads return, the call returns, and
    the graph gains the edge between [inner] and the dependency of the inner
    read and the edge between [outer] and the dependency of the outer read,
    and nothing else: neither read is attributed to the other component. *)
Theorem captured_facade_keeps_attribution (h : Host) (outer inner : Component)
    (rInner rOuter : Read) (s : XPathInvalidator) :
  returns h rInner →
  returns h rOuter →
  ∃ s', runInInvalidationContext outer
          (exec h (nestedWithCapturedFacade inner rInner rOuter)) s
        = (Normal tt, s')
        ∧ _currentDomFacade s' = None
        ∧ (∀ c n, n ∈ dependenciesOf s' c ↔
                  n ∈ dependenciesOf s c
                  ∨ (c = inner ∧ touchTarget h rInner = Some n)
                  ∨ (c = outer ∧ touchTarget h rOuter = Some n))
        ∧ (∀ n c, c ∈ dependentsOf s' n ↔
                  c ∈ dependentsOf s n
                  ∨ (c = inner ∧ touchTarget h rInner = Some n)
                  ∨ (c = outer ∧ touchTarget h rOuter = Some n)).
Proof.
  intros Hin Hout. rewrite runInInvalidationContext_unfold.
  set (f0 := {| touchedNodes := length (touchedSets s) |}).
  set (s0 := installFacade s).
  destruct (readOnce_capture h inner rInner s0 Hin) as (s1 & Hrun1 & _ & _ & Hd1 & Hn1).
  pose proof (readOnce_touchedSets h inner rInner s0 Hin) as Hts1.
  rewrite Hrun1 in Hts1. simpl in Hts1.
  pose proof (facadeRead_state h f0 rOuter s1) as Hstate2.
  destruct (facadeRead_returns h f0 rOuter s1 Hout) as [v Hv].
  assert (Hcb : exec h (nestedWithCapturedFacade inner rInner rOuter) s0
                = (Normal tt, snd (facadeRead h f0 rOuter s1))).
  { unfold nestedWithCapturedFacade. cbn [exec]. unfold bind at 1.
    assert (Hget : currentDomFacade s0 = (Normal (Some f0), s0)) by reflexivity.
    rewrite Hget. unfold bind at 1. rewrite Hrun1.
    unfold bind, readThrough.
    destruct (facadeRead h f0 rOuter s1) as [res s2]. cbn [fst snd] in *.
    by subst res. }
  rewrite Hcb.
  destruct (facadeRead h f0 rOuter s1) as [res s2]. simpl in *.
  eexists. split; [reflexivity |].
  destruct (mergeTouched_spec outer f0 s2) as (Hslot & _ & Hd & Hn).
  assert (Hlen : touchedNodes f0 < length (touchedSets s1)).
  { rewrite Hts1. unfold s0, installFacade. simpl. rewrite !length_app. simpl. lia. }
  assert (Hold : touchedBy f0 s1 = []).
  { unfold touchedBy. rewrite Hts1. unfold s0, installFacade. simpl.
    rewrite lookup_app_l by (rewrite length_app; simpl; lia).
    by rewrite list_lookup_middle. }
  assert (Htouched : ∀ n, n ∈ touchedBy f0 s2 ↔ touchTarget h rOuter = Some n).
  { intros n. rewrite Hstate2. destruct (touchTarget h rOuter) as [t |].
    - rewrite touchedBy_alter_same by done. fold (touchedBy f0 s1). rewrite Hold.
      rewrite JSSet_elem_of_add, elem_of_nil. split; [intros [-> | []]; done |].
      intros [= ->]. by left.
    - rewrite Hold, elem_of_nil. split; [done | congruence]. }
  assert (Hgraph : sameGraph s1 s2).
  { rewrite Hstate2. by destruct (touchTarget h rOuter). }
  destruct Hgraph as [Hgc Hgn].
  split_and!; [done | |].
  - intros c n. rewrite Hd, Htouched. unfold dependenciesOf at 1. rewrite Hgc.
    fold (dependenciesOf s1 c). rewrite Hd1. unfold s0.
    unfold dependenciesOf at 1. simpl. fold (dependenciesOf s c). tauto.
  - intros n c. rewrite Hn, Htouched. unfold dependentsOf at 1. rewrite Hgn.
    fold (dependentsOf s1 n). rewrite Hn1. unfold s0.
    unfold dependentsOf at 1. simpl. fold (dependentsOf s n). tauto.
Qed.

(** On the sample tree: component [100] reads the data of [2] through the
    facade it took before component [200] read the children of [3]. *)
Lemma captured_facade_keeps_attribution_witness :
  ∃ s', runInInvalidationContext 100
          (exec sampleHost
             (nestedWithCapturedFacade 200 (GetChildNodes 3 None) (GetData 2)))
          initial
        = (Normal tt, s')
        ∧ _currentDomFacade s' = None
        ∧ (∀ c n, n ∈ dependenciesOf s' c ↔
                  n ∈ dependenciesOf initial c
                  ∨ (c = 200 ∧ touchTarget sampleHost (GetChildNodes 3 None) = Some n)
                  ∨ (c = 100 ∧ touchTarget sampleHost (GetData 2) = Some n))
        ∧ (∀ n c, c ∈ dependentsOf s' n ↔
                  c ∈ dependentsOf initial n
                  ∨ (c = 200 ∧ touchTarget sampleHost (GetChildNodes 3 None) = Some n)
                  ∨ (c = 100 ∧ touchTarget sampleHost (GetData 2) = Some n)).
Proof.
  exact (captured_facade_keeps_attribution sampleHost 100 200
           (GetChildNodes 3 None) (GetData 2) initial I I).
Defined.

(** ** End to end *)

Lemma singleton_of_NoDup {A} (l : list A) (c : A) :
  NoDup l → (∀ x, x ∈ l ↔ x = c) → l = [c].
Proof.
  intros Hnd Hall. destruct l as [| x l].
  - exfalso. by apply (elem_of_nil c), Hall.
  - assert (x = c) as -> by (apply Hall; left).
    destruct l as [| y l]; [done |].
    assert (y = c) as -> by (apply Hall; right; left).
    apply NoDup_cons in Hnd as [Hnin _]. exfalso. apply Hnin. left.
Qed.

(** End to end, on any tree. An instance is observed; component [c]
    evaluates one read that returns and depends on a node [t] at or below the
    anchor; then a child-list or attribute mutation of [t] happens. The drain
    returns exactly [c], and the drain after it returns nothing. *)
Theorem observed_change_invalidates_reader (h : Host) (root a t : Node)
    (c : Component) (r : Read) (ty : MutationObserver.MutationType) :
  anchorOf h root = Some a →
  returns h r →
  touchTarget h r = Some t →
  t = a ∨ a ∈ ancestors h t →
  ty ≠ MutationObserver.CharacterData →
  ∃ s', getInvalidatedComponents (run (endToEndHistory h root c r ty t) initial)
        = (Normal [c], s')
        ∧ getInvalidatedComponents s' = (Normal [], s').
Proof.
  intros Ha Hret Ht Hsub Hty.
  pose proof (run_symmetric (endToEndHistory h root c r ty t) initial initial_symmetric)
    as Hsym.
  pose proof (run_setsNoDup (endToEndHistory h root c r ty t) initial initial_setsNoDup)
    as Hnd.
  unfold endToEndHistory in *. cbn [run foldl step] in *.
  set (s1 := snd (observeInstance h (ANode root) initial)) in *.
  set (s2 := snd (runInInvalidationContext c (exec h (readOnce r)) s1)) in *.
  assert (Hs1 : s1 = with_mutationObserver
                       {| MutationObserver.registrations :=
                            [(a, MutationObserver.toInit observeOptions)];
                          MutationObserver.recordQueue := [] |} initial).
  { unfold s1. by rewrite (observeInstance_anchor h root a initial Ha). }
  destruct (sameRecords_runInInvalidationContext h c (readOnce r) s1) as [Hq Ho].
  fold s2 in Hq, Ho.
  assert (Hp2 : pending s2 = []).
  { unfold pending. rewrite Hq, Ho, Hs1. done. }
  assert (Hreg : (a, MutationObserver.toInit observeOptions)
                   ∈ MutationObserver.registrations (_mutationObserver s2)).
  { rewrite Ho, Hs1. simpl. left. }
  pose proof (observes_recorded h a ty t s2 Hreg Hty Hsub) as Hp3.
  rewrite Hp2 in Hp3. simpl in Hp3.
  destruct (single_record_drain (mutate h ty t s2) _ Hsym Hnd Hp3)
    as (s' & Hdrain & Hnodup & _ & _).
  simpl in Hdrain, Hnodup.
  assert (Hdeps : dependentsOf (mutate h ty t s2) t = [c]).
  { apply singleton_of_NoDup; [done |]. intros c'.
    change (dependentsOf (mutate h ty t s2) t) with (dependentsOf s2 t).
    destruct (readOnce_capture h c r s1 Hret) as (s2' & Hrun & _ & _ & _ & Hn).
    unfold s2. rewrite Hrun. cbn [snd]. rewrite Hn, Hs1.
    unfold dependentsOf at 1. simpl. rewrite lookup_empty. simpl.
    rewrite elem_of_nil. split; [intros [[] | [? _]]; done | by right]. }
  rewrite Hdeps in Hdrain. exists s'. split; [done |].
  apply drain_nothing_pending.
  pose proof (drain_leaves_nothing_pending (mutate h ty t s2)) as Hleft.
  by rewrite Hdrain in Hleft.
Qed.

(** On the sample tree: the document is observed, component [100] reads the
    next sibling of text node [2], which makes it depend on element [1], and
    an attribute of [1] changes. *)
Lemma observed_change_invalidates_reader_witness :
  ∃ s', getInvalidatedComponents
          (run (endToEndHistory sampleHost 0 100 (GetNextSibling 2 None)
                  MutationObserver.Attributes 1) initial)
        = (Normal [100], s')
        ∧ getInvalidatedComponents s' = (Normal [], s').
Proof.
  apply (observed_change_invalidates_reader sampleHost 0 1 1 100
           (GetNextSibling 2 None) MutationObserver.Attributes).
  - reflexivity.
  - exact I.
  - reflexivity.
  - by left.
  - discriminate.
Defined.
